(** * The gesture and viewport engine of react-image-lightbox

    A shallow embedding of [src/react-image-lightbox.tsx]: the pointer
    registry and source arbitration, the pan / swipe / pinch state machine,
    the zoom and offset arithmetic, the image cache and loader, and the
    timer bookkeeping of the component.

    Conventions of the embedding.
    - A JavaScript [number] is a real number ([R]): every arithmetic
      operation of the source is the exact one, [Math.max], [Math.min],
      [Math.abs] and [Math.sqrt] are [Rmax], [Rmin], [Rabs] and [sqrt], and
      [a ** b] with a positive base is [Rpower a b].  Rounding, NaN and
      the infinities are outside the model; the one place where the source
      can divide by zero before comparing ([getFitSizes]) is written out.
    - [this.setState] updates [this.state] at once, the object fields of the
      component are fields of [Engine], and a method is a function from
      [Engine] to [Engine] (to [option Engine] where the source can throw).
    - What the component calls on its surroundings ([preventDefault],
      [forceUpdate], the [on...Request] callbacks of the props) is appended
      to a log; the browser's timer table and the image loads in flight are
      part of [Env].
    - [render], the caption's wheel handler and [closeIfClickInner] take no
      part in the engine's state and are left out. *)

From Stdlib Require Import Reals Lra List String Bool.
From stdpp Require Import base option list gmap strings.
Import ListNotations.
Local Open Scope R_scope.

(** ** Numbers *)

Definition num_lt (x y : R) : bool := if Rlt_dec x y then true else false.
Definition num_le (x y : R) : bool := if Rle_dec x y then true else false.
Definition num_eq (x y : R) : bool := if Req_dec_T x y then true else false.

Infix "<?" := num_lt (at level 70, no associativity) : R_scope.
Infix "<=?" := num_le (at level 70, no associativity) : R_scope.
Infix "=?" := num_eq (at level 70, no associativity) : R_scope.
Notation "x >? y" := (num_lt y x) (at level 70, no associativity) : R_scope.
Notation "x >=? y" := (num_le y x) (at level 70, no associativity) : R_scope.

(** [Math.max(lo, Math.min(hi, v))], the clamp the source writes three times. *)
Definition clamp (lo hi v : R) : R := Rmax lo (Rmin hi v).

(** ** Constants and enumerations of [./constant] *)

(** Modelled from the spec: the numeric constants imported from the absent
    [./constant] module are parameters of the development (the spec names
    them in its section 6 and fixes no value). *)
Class Constants := {
  MIN_ZOOM_LEVEL : R;
  MAX_ZOOM_LEVEL : R;
  ZOOM_RATIO : R;
  ZOOM_BUTTON_INCREMENT_SIZE : R;
  WHEEL_MOVE_Y_THRESHOLD : R;
  MIN_SWIPE_DISTANCE : R
}.

(** Modelled from the spec: the [Action] enumeration of the absent
    [./constant] module, the spec's InteractionMode (Idle, Pan, Swipe,
    Pinch) under the member names the source uses. *)
Inductive Action := NONE | MOVE | SWIPE | PINCH.

(** Modelled from the spec: the [Source] enumeration of the absent
    [./constant] module: mouse, touch, pointer, and [ANY] for no active
    source. *)
Inductive Source := ANY | MOUSE | TOUCH | POINTER.

(** Modelled from the spec: the key codes [KEYS.ESC], [KEYS.LEFT_ARROW] and
    [KEYS.RIGHT_ARROW] of the absent [./constant] module, and any other
    key. *)
Inductive Key := ESC | LEFT_ARROW | RIGHT_ARROW | OtherKey.

#[global] Instance Key_eq_dec : EqDecision Key.
Proof. solve_decision. Defined.
#[global] Instance Action_eq_dec : EqDecision Action.
Proof. solve_decision. Defined.
#[global] Instance Source_eq_dec : EqDecision Source.
Proof. solve_decision. Defined.

(** ** Data model *)

(** The six image roles of [getSrcTypes], in its order. *)
Inductive SrcName :=
  | MainSrc | MainSrcThumbnail
  | NextSrc | NextSrcThumbnail
  | PrevSrc | PrevSrcThumbnail.

#[global] Instance SrcName_eq_dec : EqDecision SrcName.
Proof. solve_decision. Defined.

Definition srcTypeName (t : SrcName) : string :=
  match t with
  | MainSrc => "mainSrc" | MainSrcThumbnail => "mainSrcThumbnail"
  | NextSrc => "nextSrc" | NextSrcThumbnail => "nextSrcThumbnail"
  | PrevSrc => "prevSrc" | PrevSrcThumbnail => "prevSrcThumbnail"
  end.

Definition getSrcTypes : list SrcName :=
  [MainSrc; MainSrcThumbnail; NextSrc; NextSrcThumbnail; PrevSrc; PrevSrcThumbnail].

(** The props the engine reads (defaults already applied). *)
Record Props := {
  mainSrc : string;
  prevSrc : option string;
  nextSrc : option string;
  mainSrcThumbnail : option string;
  prevSrcThumbnail : option string;
  nextSrcThumbnail : option string;
  enableZoom : bool;
  animationDisabled : bool;
  animationOnKeyInput : bool;
  animationDuration : R;
  keyRepeatLimit : R;
  keyRepeatKeyupBonus : R;
  imagePadding : R
}.

(** [props[name]] *)
Definition propSrc (p : Props) (t : SrcName) : option string :=
  match t with
  | MainSrc => Some (mainSrc p)
  | MainSrcThumbnail => mainSrcThumbnail p
  | NextSrc => nextSrc p
  | NextSrcThumbnail => nextSrcThumbnail p
  | PrevSrc => prevSrc p
  | PrevSrcThumbnail => prevSrcThumbnail p
  end.

(** [props[`${srcType}Thumbnail`]]: only the three full-size roles have one. *)
Definition propThumbnail (p : Props) (t : SrcName) : option string :=
  match t with
  | MainSrc => mainSrcThumbnail p
  | NextSrc => nextSrcThumbnail p
  | PrevSrc => prevSrcThumbnail p
  | _ => None
  end.

(** Truthiness of an optional string: defined and not empty. *)
Definition truthy (o : option string) : bool :=
  match o with
  | Some s => negb (String.eqb s "")
  | None => false
  end.

Inductive PointerId := MouseId | NumId (n : Z).

#[global] Instance PointerId_eq_dec : EqDecision PointerId.
Proof. solve_decision. Defined.

Record ParsedEvent := {
  p_id : PointerId;
  p_source : option Source;
  p_x : R;
  p_y : R
}.

(** The coordinates are the ones [parseInt] returned. *)
Definition parseMouseEvent (clientX clientY : R) : ParsedEvent :=
  {| p_id := MouseId; p_source := Some MOUSE; p_x := clientX; p_y := clientY |}.

Definition parseTouchPointer (identifier : Z) (clientX clientY : R) : ParsedEvent :=
  {| p_id := NumId identifier; p_source := Some TOUCH; p_x := clientX; p_y := clientY |}.

Definition parsePointerEvent (pointerId : Z) (clientX clientY : R) : ParsedEvent :=
  {| p_id := NumId pointerId; p_source := Some POINTER; p_x := clientX; p_y := clientY |}.

Record CacheEntry := {
  loaded : bool;
  c_width : R;
  c_height : R
}.

Record Rect := {
  r_width : R;
  r_height : R;
  r_left : R;
  r_top : R
}.

(** The React state of the component. *)
Record State := {
  isClosing : bool;
  shouldAnimate : bool;
  zoomLevel : R;
  offsetX : R;
  offsetY : R;
  loadErrorStatus : gmap string bool
}.

Record Gesture := {
  currentAction : Action;
  eventsSource : Source;
  pointerList : list ParsedEvent
}.

Record MoveVars := {
  moveStartX : R;
  moveStartY : R;
  moveStartOffsetX : R;
  moveStartOffsetY : R
}.

Record SwipeVars := {
  swipeStartX : R;
  swipeStartY : R;
  swipeEndX : R;
  swipeEndY : R
}.

Record PinchVars := {
  pinchTouchList : list ParsedEvent;
  pinchDistance : R
}.

Record TimerVars := {
  timeouts : list positive;
  preventInnerCloseTimeout : option positive;
  resizeTimeout : option positive;
  resetScrollTimeout : option positive
}.

Record Flags := {
  preventInnerClose : bool;
  keyPressed : bool;
  moveRequested : bool;
  didUnmount : bool;
  scrollX : R;
  scrollY : R;
  keyCounter : Z;
  lastKeyDownTime : R
}.

(** What a timer does when it fires: the closures the source hands to
    [this.setTimeout]. *)
Inductive TimerCallback :=
  | CbForceUpdate                              (* handleWindowResize *)
  | CbAllowInnerClose                          (* setPreventInnerClose *)
  | CbResetScroll                              (* handleOuterMousewheel *)
  | CbStopAnimating                            (* handleMoveEnd, requestMove *)
  | CbLoadDone (t : SrcName) (src : string)    (* loadImage, already cached *)
  | CbCloseLightbox.                           (* requestClose *)

Record Timer := {
  t_id : positive;
  t_delay : R;
  t_callback : TimerCallback
}.

(** Calls that leave the component. *)
Inductive Effect :=
  | PreventDefault
  | ForceUpdate
  | OnMovePrevRequest
  | OnMoveNextRequest
  | OnCloseRequest
  | OnImageLoad (src : string) (t : SrcName)
  | OnImageLoadError (src : string) (t : SrcName)
  | FocusZoomInBtn
  | FocusZoomOutBtn.

(** The surroundings: the rectangle [getLightboxRect] returns, the timers
    pending in the browser (ids are positive and never reused), the image
    loads in flight, whether the window listeners are attached, and the log
    of effects. *)
Record Env := {
  boxRect : Rect;
  pending : list Timer;
  nextTimerId : positive;
  inflight : list (SrcName * string);
  listening : bool;
  log : list Effect
}.

Record Engine := {
  props : Props;
  state : State;
  gesture : Gesture;
  moveVars : MoveVars;
  swipeVars : SwipeVars;
  pinchVars : PinchVars;
  timerVars : TimerVars;
  flags : Flags;
  imageCache : gmap string CacheEntry;
  env : Env
}.

(** *** Field updates *)

Definition with_props (p : Props) (e : Engine) : Engine :=
  {| props := p; state := state e; gesture := gesture e; moveVars := moveVars e;
     swipeVars := swipeVars e; pinchVars := pinchVars e; timerVars := timerVars e;
     flags := flags e; imageCache := imageCache e; env := env e |}.

Definition with_state (s : State) (e : Engine) : Engine :=
  {| props := props e; state := s; gesture := gesture e; moveVars := moveVars e;
     swipeVars := swipeVars e; pinchVars := pinchVars e; timerVars := timerVars e;
     flags := flags e; imageCache := imageCache e; env := env e |}.

Definition with_gesture (g : Gesture) (e : Engine) : Engine :=
  {| props := props e; state := state e; gesture := g; moveVars := moveVars e;
     swipeVars := swipeVars e; pinchVars := pinchVars e; timerVars := timerVars e;
     flags := flags e; imageCache := imageCache e; env := env e |}.

Definition with_moveVars (m : MoveVars) (e : Engine) : Engine :=
  {| props := props e; state := state e; gesture := gesture e; moveVars := m;
     swipeVars := swipeVars e; pinchVars := pinchVars e; timerVars := timerVars e;
     flags := flags e; imageCache := imageCache e; env := env e |}.

Definition with_swipeVars (w : SwipeVars) (e : Engine) : Engine :=
  {| props := props e; state := state e; gesture := gesture e; moveVars := moveVars e;
     swipeVars := w; pinchVars := pinchVars e; timerVars := timerVars e;
     flags := flags e; imageCache := imageCache e; env := env e |}.

Definition with_pinchVars (w : PinchVars) (e : Engine) : Engine :=
  {| props := props e; state := state e; gesture := gesture e; moveVars := moveVars e;
     swipeVars := swipeVars e; pinchVars := w; timerVars := timerVars e;
     flags := flags e; imageCache := imageCache e; env := env e |}.

Definition with_timerVars (t : TimerVars) (e : Engine) : Engine :=
  {| props := props e; state := state e; gesture := gesture e; moveVars := moveVars e;
     swipeVars := swipeVars e; pinchVars := pinchVars e; timerVars := t;
     flags := flags e; imageCache := imageCache e; env := env e |}.

Definition with_flags (f : Flags) (e : Engine) : Engine :=
  {| props := props e; state := state e; gesture := gesture e; moveVars := moveVars e;
     swipeVars := swipeVars e; pinchVars := pinchVars e; timerVars := timerVars e;
     flags := f; imageCache := imageCache e; env := env e |}.

Definition with_imageCache (c : gmap string CacheEntry) (e : Engine) : Engine :=
  {| props := props e; state := state e; gesture := gesture e; moveVars := moveVars e;
     swipeVars := swipeVars e; pinchVars := pinchVars e; timerVars := timerVars e;
     flags := flags e; imageCache := c; env := env e |}.

Definition with_env (v : Env) (e : Engine) : Engine :=
  {| props := props e; state := state e; gesture := gesture e; moveVars := moveVars e;
     swipeVars := swipeVars e; pinchVars := pinchVars e; timerVars := timerVars e;
     flags := flags e; imageCache := imageCache e; env := v |}.

(** Append to the log of effects. *)
Definition emit (x : Effect) (e : Engine) : Engine :=
  let v := env e in
  with_env {| boxRect := boxRect v; pending := pending v; nextTimerId := nextTimerId v;
              inflight := inflight v; listening := listening v;
              log := log v ++ [x] |} e.

(** [this.setState({ zoomLevel, offsetX, offsetY })] *)
Definition setViewport (z ox oy : R) (e : Engine) : Engine :=
  let s := state e in
  with_state {| isClosing := isClosing s; shouldAnimate := shouldAnimate s;
                zoomLevel := z; offsetX := ox; offsetY := oy;
                loadErrorStatus := loadErrorStatus s |} e.

(** [this.setState({ shouldAnimate })] *)
Definition setShouldAnimate (b : bool) (e : Engine) : Engine :=
  let s := state e in
  with_state {| isClosing := isClosing s; shouldAnimate := b;
                zoomLevel := zoomLevel s; offsetX := offsetX s; offsetY := offsetY s;
                loadErrorStatus := loadErrorStatus s |} e.

(** [this.setState({ isClosing })] *)
Definition setIsClosing (b : bool) (e : Engine) : Engine :=
  let s := state e in
  with_state {| isClosing := b; shouldAnimate := shouldAnimate s;
                zoomLevel := zoomLevel s; offsetX := offsetX s; offsetY := offsetY s;
                loadErrorStatus := loadErrorStatus s |} e.

(** [this.setState(prev => ({ loadErrorStatus: { ...prev.loadErrorStatus, [type]: b } }))] *)
Definition setLoadError (t : SrcName) (b : bool) (e : Engine) : Engine :=
  let s := state e in
  with_state {| isClosing := isClosing s; shouldAnimate := shouldAnimate s;
                zoomLevel := zoomLevel s; offsetX := offsetX s; offsetY := offsetY s;
                loadErrorStatus := <[srcTypeName t := b]> (loadErrorStatus s) |} e.

Definition setCurrentAction (a : Action) (e : Engine) : Engine :=
  let g := gesture e in
  with_gesture {| currentAction := a; eventsSource := eventsSource g;
                  pointerList := pointerList g |} e.

Definition setEventsSource (s : Source) (e : Engine) : Engine :=
  let g := gesture e in
  with_gesture {| currentAction := currentAction g; eventsSource := s;
                  pointerList := pointerList g |} e.

Definition setPointerList (l : list ParsedEvent) (e : Engine) : Engine :=
  let g := gesture e in
  with_gesture {| currentAction := currentAction g; eventsSource := eventsSource g;
                  pointerList := l |} e.

Definition setPinchVars (l : list ParsedEvent) (d : R) (e : Engine) : Engine :=
  with_pinchVars {| pinchTouchList := l; pinchDistance := d |} e.

Definition setScroll (sx sy : R) (e : Engine) : Engine :=
  let f := flags e in
  with_flags {| preventInnerClose := preventInnerClose f; keyPressed := keyPressed f;
                moveRequested := moveRequested f; didUnmount := didUnmount f;
                scrollX := sx; scrollY := sy; keyCounter := keyCounter f;
                lastKeyDownTime := lastKeyDownTime f |} e.

Definition setPreventInnerCloseFlag (b : bool) (e : Engine) : Engine :=
  let f := flags e in
  with_flags {| preventInnerClose := b; keyPressed := keyPressed f;
                moveRequested := moveRequested f; didUnmount := didUnmount f;
                scrollX := scrollX f; scrollY := scrollY f; keyCounter := keyCounter f;
                lastKeyDownTime := lastKeyDownTime f |} e.

Definition setDidUnmount (b : bool) (e : Engine) : Engine :=
  let f := flags e in
  with_flags {| preventInnerClose := preventInnerClose f; keyPressed := keyPressed f;
                moveRequested := moveRequested f; didUnmount := b;
                scrollX := scrollX f; scrollY := scrollY f; keyCounter := keyCounter f;
                lastKeyDownTime := lastKeyDownTime f |} e.

Definition setMoveRequested (b : bool) (e : Engine) : Engine :=
  let f := flags e in
  with_flags {| preventInnerClose := preventInnerClose f; keyPressed := keyPressed f;
                moveRequested := b; didUnmount := didUnmount f;
                scrollX := scrollX f; scrollY := scrollY f; keyCounter := keyCounter f;
                lastKeyDownTime := lastKeyDownTime f |} e.

Definition setKeyState (pressed : bool) (t : R) (e : Engine) : Engine :=
  let f := flags e in
  with_flags {| preventInnerClose := preventInnerClose f; keyPressed := pressed;
                moveRequested := moveRequested f; didUnmount := didUnmount f;
                scrollX := scrollX f; scrollY := scrollY f; keyCounter := keyCounter f;
                lastKeyDownTime := t |} e.

Definition setTimeouts (l : list positive) (e : Engine) : Engine :=
  let t := timerVars e in
  with_timerVars {| timeouts := l;
                    preventInnerCloseTimeout := preventInnerCloseTimeout t;
                    resizeTimeout := resizeTimeout t;
                    resetScrollTimeout := resetScrollTimeout t |} e.

Definition setPreventInnerCloseTimeout (o : option positive) (e : Engine) : Engine :=
  let t := timerVars e in
  with_timerVars {| timeouts := timeouts t;
                    preventInnerCloseTimeout := o;
                    resizeTimeout := resizeTimeout t;
                    resetScrollTimeout := resetScrollTimeout t |} e.

Definition setResizeTimeout (o : option positive) (e : Engine) : Engine :=
  let t := timerVars e in
  with_timerVars {| timeouts := timeouts t;
                    preventInnerCloseTimeout := preventInnerCloseTimeout t;
                    resizeTimeout := o;
                    resetScrollTimeout := resetScrollTimeout t |} e.

Definition setResetScrollTimeout (o : option positive) (e : Engine) : Engine :=
  let t := timerVars e in
  with_timerVars {| timeouts := timeouts t;
                    preventInnerCloseTimeout := preventInnerCloseTimeout t;
                    resizeTimeout := resizeTimeout t;
                    resetScrollTimeout := o |} e.

Definition setPending (l : list Timer) (n : positive) (e : Engine) : Engine :=
  let v := env e in
  with_env {| boxRect := boxRect v; pending := l; nextTimerId := n;
              inflight := inflight v; listening := listening v; log := log v |} e.

Definition setInflight (l : list (SrcName * string)) (e : Engine) : Engine :=
  let v := env e in
  with_env {| boxRect := boxRect v; pending := pending v; nextTimerId := nextTimerId v;
              inflight := l; listening := listening v; log := log v |} e.

Definition setListening (b : bool) (e : Engine) : Engine :=
  let v := env e in
  with_env {| boxRect := boxRect v; pending := pending v; nextTimerId := nextTimerId v;
              inflight := inflight v; listening := b; log := log v |} e.

(** ** Timers: [setTimeout], [clearTimeout] *)

(** The browser's [setTimeout]: a fresh id, the timer pending. *)
Definition browserSetTimeout (cb : TimerCallback) (time : R) (e : Engine) : positive * Engine :=
  let id := nextTimerId (env e) in
  (id, setPending (pending (env e) ++ [{| t_id := id; t_delay := time; t_callback := cb |}])
                  (Pos.succ id) e).

(** The browser's [clearTimeout]: nothing happens for an id that is not pending. *)
Definition browserClearTimeout (id : positive) (e : Engine) : Engine :=
  setPending (List.filter (fun t => negb (Pos.eqb (t_id t) id)) (pending (env e)))
             (nextTimerId (env e)) e.

(** [this.setTimeout(func, time)]: the browser timer is created (its closure
    first drops the id from [this.timeouts], then calls [func]; see
    [fireTimer]), and the id is pushed on [this.timeouts]. *)
Definition setTimeout (func : TimerCallback) (time : R) (e : Engine) : positive * Engine :=
  let '(id, e1) := browserSetTimeout func time e in
  (id, setTimeouts (timeouts (timerVars e1) ++ [id]) e1).

(** [this.clearTimeout(id)]; [id] may be undefined. *)
Definition clearTimeout (id : option positive) (e : Engine) : Engine :=
  match id with
  | Some i =>
      browserClearTimeout i
        (setTimeouts (List.filter (fun tid => negb (Pos.eqb tid i)) (timeouts (timerVars e))) e)
  | None => e
  end.

(** ** Image cache queries and sizes *)

Definition cacheEntryOf (e : Engine) (imageSrc : option string) : option CacheEntry :=
  match imageSrc with
  | Some s => imageCache e !! s
  | None => None
  end.

Definition isImageLoaded (e : Engine) (imageSrc : option string) : bool :=
  truthy imageSrc &&
  match cacheEntryOf e imageSrc with
  | Some c => loaded c
  | None => false
  end.

Record Size := {
  s_width : R;
  s_height : R
}.

Definition getLightboxRect (e : Engine) : Rect := boxRect (env e).

(** [a / b > c] as JavaScript evaluates it for a finite [c]: over a zero
    denominator the quotient is +Infinity, -Infinity or NaN by the sign of
    [a], and of these only +Infinity is greater than [c].  In [getFitSizes]
    [c] is [width / height], finite for the non-zero [height] of a decoded
    image. *)
Definition quot_gt (a b c : R) : bool :=
  if b =? 0 then a >? 0 else a / b >? c.

Definition getFitSizes (e : Engine) (width height : R) (stretch : bool) : Size :=
  let boxSize := getLightboxRect e in
  let maxHeight := r_height boxSize - imagePadding (props e) * 2 in
  let maxWidth := r_width boxSize - imagePadding (props e) * 2 in
  let maxHeight := if negb stretch then Rmin maxHeight height else maxHeight in
  let maxWidth := if negb stretch then Rmin maxWidth width else maxWidth in
  let srcRatio := width / height in
  if quot_gt maxWidth maxHeight srcRatio then
    {| s_width := (width * maxHeight) / height; s_height := maxHeight |}
  else
    {| s_width := maxWidth; s_height := (height * maxWidth) / width |}.

Record ImageInfo := {
  i_src : string;
  i_height : R;
  i_width : R;
  targetHeight : R;
  targetWidth : R
}.

Definition getBestImageForType (e : Engine) (srcType : SrcName) : option ImageInfo :=
  let imageSrc := propSrc (props e) srcType in
  let thumb := propThumbnail (props e) srcType in
  if isImageLoaded e imageSrc then
    match imageSrc, cacheEntryOf e imageSrc with
    | Some s, Some c =>
        let fitSizes := getFitSizes e (c_width c) (c_height c) false in
        Some {| i_src := s; i_height := c_height c; i_width := c_width c;
                targetHeight := s_height fitSizes; targetWidth := s_width fitSizes |}
    | _, _ => None
    end
  else if isImageLoaded e thumb then
    match thumb, cacheEntryOf e thumb with
    | Some s, Some c =>
        let fitSizes := getFitSizes e (c_width c) (c_height c) true in
        Some {| i_src := s; i_height := c_height c; i_width := c_width c;
                targetHeight := s_height fitSizes; targetWidth := s_width fitSizes |}
    | _, _ => None
    end
  else None.

Section WithConstants.
Context {K : Constants}.

(** [ZOOM_RATIO ** zoomLevel] *)
Definition getZoomMultiplier (zoomLevel : R) : R := Rpower ZOOM_RATIO zoomLevel.

Record MaxOffsets := {
  maxX : R;
  minX : R;
  maxY : R;
  minY : R
}.

Definition getMaxOffsets (e : Engine) : MaxOffsets :=
  let zoomLevel := zoomLevel (state e) in
  match getBestImageForType e MainSrc with
  | None => {| maxX := 0; minX := 0; maxY := 0; minY := 0 |}
  | Some currentImageInfo =>
      let boxSize := getLightboxRect e in
      let zoomMultiplier := getZoomMultiplier zoomLevel in
      let maxX :=
        if zoomMultiplier * i_width currentImageInfo - r_width boxSize <? 0
        then (r_width boxSize - zoomMultiplier * i_width currentImageInfo) / 2
        else (zoomMultiplier * i_width currentImageInfo - r_width boxSize) / 2 in
      let maxY :=
        if zoomMultiplier * i_height currentImageInfo - r_height boxSize <? 0
        then (r_height boxSize - zoomMultiplier * i_height currentImageInfo) / 2
        else (zoomMultiplier * i_height currentImageInfo - r_height boxSize) / 2 in
      {| maxX := maxX; minX := -1 * maxX; maxY := maxY; minY := -1 * maxY |}
  end.

(** ** [changeZoom] *)

(** The offset that keeps the image point under [pointer] in place when the
    multiplier goes from [cur] to [next]: the arithmetic of [changeZoom]
    between [currentImageOffsetX] and [nextOffsetX], for one axis ([box] is
    the viewport's extent, [img] the image's, [offset] the current offset). *)
Definition anchoredOffset (box img offset pointer cur next : R) : R :=
  let currentImageOffset := (box - img * cur) / 2 in
  let currentImageRealOffset := currentImageOffset - offset in
  let currentPointerRelativeToImage := (pointer - currentImageRealOffset) / cur in
  let nextImageRealOffset := pointer - currentPointerRelativeToImage * next in
  let nextImageOffset := (box - img * next) / 2 in
  nextImageOffset - nextImageRealOffset.

Definition changeZoom (zoomLevel' : R) (clientX clientY : option R) (e : Engine) : Engine :=
  (* Ignore if zoom disabled *)
  if negb (enableZoom (props e)) then e else
  (* Constrain zoom level to the set bounds *)
  let nextZoomLevel := clamp MIN_ZOOM_LEVEL MAX_ZOOM_LEVEL zoomLevel' in
  (* Ignore requests that don't change the zoom level *)
  if nextZoomLevel =? zoomLevel (state e) then e else
  if nextZoomLevel =? MIN_ZOOM_LEVEL then
    (* Snap back to center if zoomed all the way out *)
    setViewport nextZoomLevel 0 0 e
  else
  match getBestImageForType e MainSrc with
  | None => e
  | Some imageBaseSize =>
      let currentZoomMultiplier := getZoomMultiplier (zoomLevel (state e)) in
      let nextZoomMultiplier := getZoomMultiplier nextZoomLevel in
      (* Default to the center of the image to zoom when no mouse position specified *)
      let boxRect := getLightboxRect e in
      let pointerX :=
        match clientX with
        | Some cx => cx - r_left boxRect
        | None => r_width boxRect / 2
        end in
      let pointerY :=
        match clientY with
        | Some cy => cy - r_top boxRect
        | None => r_height boxRect / 2
        end in
      let nextOffsetX :=
        anchoredOffset (r_width boxRect) (i_width imageBaseSize) (offsetX (state e))
                       pointerX currentZoomMultiplier nextZoomMultiplier in
      let nextOffsetY :=
        anchoredOffset (r_height boxRect) (i_height imageBaseSize) (offsetY (state e))
                       pointerY currentZoomMultiplier nextZoomMultiplier in
      (* When zooming out, limit the offset so things don't get left askew *)
      let maxOffsets := getMaxOffsets e in
      let limit :=
        negb (bool_decide (currentAction (gesture e) = PINCH)) &&
        (zoomLevel (state e) >? nextZoomLevel) in
      let nextOffsetX :=
        if limit then clamp (minX maxOffsets) (maxX maxOffsets) nextOffsetX
        else nextOffsetX in
      let nextOffsetY :=
        if limit then clamp (minY maxOffsets) (maxY maxOffsets) nextOffsetY
        else nextOffsetY in
      setViewport nextZoomLevel nextOffsetX nextOffsetY e
  end.

(** ** Source arbitration and the pointer registry *)

Definition filterPointersBySource (e : Engine) : Engine :=
  setPointerList
    (List.filter (fun p => bool_decide (p_source p = Some (eventsSource (gesture e))))
                 (pointerList (gesture e))) e.

Definition shouldHandleEvent (source : Source) (e : Engine) : bool * Engine :=
  if bool_decide (eventsSource (gesture e) = source) then (true, e)
  else if bool_decide (eventsSource (gesture e) = ANY) then (true, setEventsSource source e)
  else
    match source with
    | MOUSE => (false, e)
    | TOUCH => (true, filterPointersBySource (setEventsSource TOUCH e))
    | POINTER =>
        if bool_decide (eventsSource (gesture e) = MOUSE)
        then (true, filterPointersBySource (setEventsSource POINTER e))
        else (false, e)
    | ANY => (false, e)
    end.

Definition addPointer (pointer : ParsedEvent) (e : Engine) : Engine :=
  setPointerList (pointerList (gesture e) ++ [pointer]) e.

Definition removePointer (pointer : ParsedEvent) (e : Engine) : Engine :=
  setPointerList
    (List.filter (fun p => negb (bool_decide (p_id p = p_id pointer)))
                 (pointerList (gesture e))) e.

(** ** Pan *)

Definition handleMoveStart (pointer : ParsedEvent) (e : Engine) : Engine :=
  if negb (enableZoom (props e)) then e else
  with_moveVars {| moveStartX := p_x pointer; moveStartY := p_y pointer;
                   moveStartOffsetX := offsetX (state e);
                   moveStartOffsetY := offsetY (state e) |}
    (setCurrentAction MOVE e).

Definition handleMove (pointer : ParsedEvent) (e : Engine) : Engine :=
  let newOffsetX := moveStartX (moveVars e) - p_x pointer + moveStartOffsetX (moveVars e) in
  let newOffsetY := moveStartY (moveVars e) - p_y pointer + moveStartOffsetY (moveVars e) in
  if negb (offsetX (state e) =? newOffsetX) || negb (offsetY (state e) =? newOffsetY)
  then setViewport (zoomLevel (state e)) newOffsetX newOffsetY e
  else e.

Definition handleMoveEnd (e : Engine) : Engine :=
  let e := setCurrentAction NONE e in
  let e := with_moveVars {| moveStartX := 0; moveStartY := 0;
                            moveStartOffsetX := 0; moveStartOffsetY := 0 |} e in
  (* Snap image back into frame if outside max offset range *)
  let maxOffsets := getMaxOffsets e in
  let nextOffsetX := clamp (minX maxOffsets) (maxX maxOffsets) (offsetX (state e)) in
  let nextOffsetY := clamp (minY maxOffsets) (maxY maxOffsets) (offsetY (state e)) in
  if negb (nextOffsetX =? offsetX (state e)) || negb (nextOffsetY =? offsetY (state e))
  then
    let e := setShouldAnimate true (setViewport (zoomLevel (state e)) nextOffsetX nextOffsetY e) in
    snd (setTimeout CbStopAnimating (animationDuration (props e)) e)
  else e.

(** ** Navigation *)

Inductive Direction := Prev | Next.

Definition isAnimating (e : Engine) : bool :=
  shouldAnimate (state e) || isClosing (state e).

Definition requestMove (direction : Direction) (e : Engine) : Engine :=
  let animated :=
    negb (animationDisabled (props e)) &&
    (negb (keyPressed (flags e)) || animationOnKeyInput (props e)) in
  (* Reset the zoom level on image move *)
  let nextState :=
    {| isClosing := isClosing (state e);
       shouldAnimate := if animated then true else shouldAnimate (state e);
       zoomLevel := MIN_ZOOM_LEVEL; offsetX := 0; offsetY := 0;
       loadErrorStatus := ∅ |} in
  (* Enable animated states *)
  let e := if animated
           then snd (setTimeout CbStopAnimating (animationDuration (props e)) e)
           else e in
  let f := flags e in
  let e := with_flags {| preventInnerClose := preventInnerClose f; keyPressed := false;
                         moveRequested := true; didUnmount := didUnmount f;
                         scrollX := scrollX f; scrollY := scrollY f;
                         keyCounter := match direction with
                                       | Prev => (keyCounter f - 1)%Z
                                       | Next => (keyCounter f + 1)%Z
                                       end;
                         lastKeyDownTime := lastKeyDownTime f |} e in
  let e := with_state nextState e in
  match direction with
  | Prev => emit OnMovePrevRequest e
  | Next => emit OnMoveNextRequest e
  end.

Definition requestMoveNext (e : Engine) : Engine := requestMove Next e.
Definition requestMovePrev (e : Engine) : Engine := requestMove Prev e.

(** ** Swipe *)

Definition handleSwipeStart (pointer : ParsedEvent) (e : Engine) : Engine :=
  with_swipeVars {| swipeStartX := p_x pointer; swipeStartY := p_y pointer;
                    swipeEndX := p_x pointer; swipeEndY := p_y pointer |}
    (setCurrentAction SWIPE e).

Definition handleSwipe (pointer : ParsedEvent) (e : Engine) : Engine :=
  with_swipeVars {| swipeStartX := swipeStartX (swipeVars e);
                    swipeStartY := swipeStartY (swipeVars e);
                    swipeEndX := p_x pointer; swipeEndY := p_y pointer |} e.

(** [event] is [true] for an event object and [false] for [null]. *)
Definition handleSwipeEnd (event : bool) (e0 : Engine) : Engine :=
  let xDiff := swipeEndX (swipeVars e0) - swipeStartX (swipeVars e0) in
  let xDiffAbs := Rabs xDiff in
  let yDiffAbs := Rabs (swipeEndY (swipeVars e0) - swipeStartY (swipeVars e0)) in
  let e := setCurrentAction NONE e0 in
  let e := with_swipeVars {| swipeStartX := 0; swipeStartY := 0;
                             swipeEndX := 0; swipeEndY := 0 |} e in
  if negb event || isAnimating e || (xDiffAbs <? yDiffAbs * 1.5) then e else
  if (xDiffAbs <? MIN_SWIPE_DISTANCE) && (xDiffAbs <? r_width (getLightboxRect e) / 4)
  then e else
  if (xDiff >? 0) && truthy (prevSrc (props e)) then
    requestMovePrev (emit PreventDefault e)
  else if (xDiff <? 0) && truthy (nextSrc (props e)) then
    requestMoveNext (emit PreventDefault e)
  else e.

(** ** Pinch *)

(** [[a, b] = list]: reading [a.x] throws when the list is shorter. *)
Definition calculatePinchDistance (l : list ParsedEvent) : option R :=
  match l with
  | a :: b :: _ => Some (sqrt ((p_x a - p_x b) ^ 2 + (p_y a - p_y b) ^ 2))
  | _ => None
  end.

Definition calculatePinchCenter (l : list ParsedEvent) : option (R * R) :=
  match l with
  | a :: b :: _ =>
      Some (p_x a - (p_x a - p_x b) / 2, p_y a - (p_y a - p_y b) / 2)
  | _ => None
  end.

Definition handlePinchStart (pointerList : list ParsedEvent) (e : Engine) : option Engine :=
  if negb (enableZoom (props e)) then Some e else
  let e := setCurrentAction PINCH e in
  let l := map (fun p => {| p_id := p_id p; p_source := None;
                            p_x := p_x p; p_y := p_y p |}) pointerList in
  d ← calculatePinchDistance l;
  Some (setPinchVars l d e).

(** The [for] loop of [handlePinch]: the first incoming sample with the id
    of [oldPointer], or [oldPointer]. *)
Definition rematch (pointerList : list ParsedEvent) (oldPointer : ParsedEvent) : ParsedEvent :=
  match List.find (fun p => bool_decide (p_id p = p_id oldPointer)) pointerList with
  | Some p => p
  | None => oldPointer
  end.

Definition handlePinch (pointerList : list ParsedEvent) (e : Engine) : option Engine :=
  let l := map (rematch pointerList) (pinchTouchList (pinchVars e)) in
  let e := setPinchVars l (pinchDistance (pinchVars e)) e in
  newDistance ← calculatePinchDistance l;
  let zoomLevel' := zoomLevel (state e) + newDistance - pinchDistance (pinchVars e) in
  let e := setPinchVars l newDistance e in
  c ← calculatePinchCenter l;
  Some (changeZoom zoomLevel' (Some (fst c)) (Some (snd c)) e).

Definition handlePinchEnd (e : Engine) : Engine :=
  setPinchVars [] 0 (setCurrentAction NONE e).

(** ** The gesture state machine *)

Definition setPreventInnerClose (e : Engine) : Engine :=
  let e := match preventInnerCloseTimeout (timerVars e) with
           | Some i => clearTimeout (Some i) e
           | None => e
           end in
  let e := setPreventInnerCloseFlag true e in
  let '(id, e) := setTimeout CbAllowInnerClose 100 e in
  setPreventInnerCloseTimeout (Some id) e.

Definition decideMoveOrSwipe (pointer : ParsedEvent) (e : Engine) : Engine :=
  if zoomLevel (state e) <=? MIN_ZOOM_LEVEL
  then handleSwipeStart pointer e
  else handleMoveStart pointer e.

Definition handleEnd (event : bool) (e : Engine) : Engine :=
  match currentAction (gesture e) with
  | MOVE => handleMoveEnd e
  | SWIPE => handleSwipeEnd event e
  | PINCH => handlePinchEnd e
  | NONE => e
  end.

(** The [switch (this.pointerList.length)] shared by [multiPointerStart]
    ([case 1], [case 2]) and [multiPointerEnd] (also [case 0], passed as
    [onZero]). *)
Definition startForPointers (onZero : Engine -> Engine) (e : Engine) : option Engine :=
  match pointerList (gesture e) with
  | [] => Some (onZero e)
  | [p] => Some (decideMoveOrSwipe p (emit PreventDefault e))
  | [_; _] => handlePinchStart (pointerList (gesture e)) (emit PreventDefault e)
  | _ => Some e
  end.

Definition multiPointerStart (e : Engine) : option Engine :=
  startForPointers (fun e => e) (handleEnd false e).

Definition multiPointerMove (pointerList : list ParsedEvent) (e : Engine) : option Engine :=
  match currentAction (gesture e) with
  | MOVE => p ← head pointerList; Some (handleMove p (emit PreventDefault e))
  | SWIPE => p ← head pointerList; Some (handleSwipe p (emit PreventDefault e))
  | PINCH => handlePinch pointerList (emit PreventDefault e)
  | NONE => Some e
  end.

Definition multiPointerEnd (e : Engine) : option Engine :=
  let e := if negb (bool_decide (currentAction (gesture e) = NONE))
           then handleEnd true (setPreventInnerClose e)
           else e in
  startForPointers (setEventsSource ANY) e.

(** ** Zoom buttons, wheel and double click *)

Definition handleZoomInButtonClick (e : Engine) : Engine :=
  let nextZoomLevel := zoomLevel (state e) + ZOOM_BUTTON_INCREMENT_SIZE in
  let e := changeZoom nextZoomLevel None None e in
  if nextZoomLevel =? MAX_ZOOM_LEVEL then emit FocusZoomOutBtn e else e.

Definition handleZoomOutButtonClick (e : Engine) : Engine :=
  let nextZoomLevel := zoomLevel (state e) - ZOOM_BUTTON_INCREMENT_SIZE in
  let e := changeZoom nextZoomLevel None None e in
  if nextZoomLevel =? MIN_ZOOM_LEVEL then emit FocusZoomInBtn e else e.

Definition handleImageMouseWheel (deltaX deltaY clientX clientY : R) (e : Engine) : Engine :=
  if Rabs deltaY >=? Rabs deltaX then
    (* If the vertical scroll amount was large enough, perform a zoom *)
    if Rabs deltaY <? WHEEL_MOVE_Y_THRESHOLD then e else
    let e := setScroll 0 (scrollY (flags e) + deltaY) e in
    changeZoom (zoomLevel (state e) - deltaY) (Some clientX) (Some clientY) e
  else e.

Definition handleImageDoubleClick (clientX clientY : R) (e : Engine) : Engine :=
  if zoomLevel (state e) >? MIN_ZOOM_LEVEL then
    (* A double click when zoomed in zooms all the way out *)
    changeZoom MIN_ZOOM_LEVEL (Some clientX) (Some clientY) e
  else
    (* A double click when zoomed all the way out zooms in *)
    changeZoom (zoomLevel (state e) + ZOOM_BUTTON_INCREMENT_SIZE)
               (Some clientX) (Some clientY) e.

(** [wheelActionTimeout] starts undefined and is assigned only behind the
    test [this.wheelActionTimeout !== null], which undefined and numbers
    pass: the handler always returns there, after re-arming the timer that
    zeroes the scroll accumulators. *)
Definition handleOuterMousewheel (e : Engine) : Engine :=
  let e := clearTimeout (resetScrollTimeout (timerVars e)) e in
  let '(id, e) := setTimeout CbResetScroll 300 e in
  setResetScrollTimeout (Some id) e.

Definition handleWindowResize (e : Engine) : Engine :=
  let e := clearTimeout (resizeTimeout (timerVars e)) e in
  let '(id, e) := setTimeout CbForceUpdate 100 e in
  setResizeTimeout (Some id) e.

(** [keydown] tells whether [event.type === 'keydown']. *)
Definition requestClose (keydown : bool) (e : Engine) : Engine :=
  if animationDisabled (props e) || (keydown && negb (animationOnKeyInput (props e)))
  then emit OnCloseRequest e
  else snd (setTimeout CbCloseLightbox (animationDuration (props e)) (setIsClosing true e)).

(** [keyup] tells whether [event.type === 'keyup'] (a keydown otherwise);
    [now] is [new Date().getTime()]. *)
Definition handleKeyInput (keyup : bool) (keyCode : Key) (now : R) (e : Engine) : Engine :=
  (* Ignore key input during animations *)
  if isAnimating e then e else
  if keyup then
    setKeyState (keyPressed (flags e))
                (lastKeyDownTime (flags e) - keyRepeatKeyupBonus (props e)) e
  else
  if (now - lastKeyDownTime (flags e) <? keyRepeatLimit (props e)) &&
     negb (bool_decide (keyCode = ESC))
  then e else
  let e := setKeyState (keyPressed (flags e)) now e in
  match keyCode with
  | ESC => requestClose true (emit PreventDefault e)
  | LEFT_ARROW =>
      if negb (truthy (prevSrc (props e))) then e else
      requestMovePrev (setKeyState true now (emit PreventDefault e))
  | RIGHT_ARROW =>
      if negb (truthy (nextSrc (props e))) then e else
      requestMoveNext (setKeyState true now (emit PreventDefault e))
  | OtherKey => e
  end.

(** ** Image loading *)

(** The callback [generateLoadDoneCallback(srcType, imageSrc)] builds,
    called with [err]. *)
Definition loadDone (srcType : SrcName) (imageSrc : string) (err : bool) (e : Engine) : Engine :=
  (* Give up showing image on error *)
  if err then e else
  (* Don't rerender if the src is not the same as when the load started
     or if the component has unmounted *)
  if negb (bool_decide (propSrc (props e) srcType = Some imageSrc)) || didUnmount (flags e)
  then e
  else emit ForceUpdate e.

(** [loadImage]: a cached image calls [done] from a timer; otherwise an
    in-memory image is created and its load is in flight. *)
Definition loadImage (srcType : SrcName) (imageSrc : string) (e : Engine) : Engine :=
  if isImageLoaded e (Some imageSrc)
  then snd (setTimeout (CbLoadDone srcType imageSrc) 1 e)
  else setInflight (inflight (env e) ++ [(srcType, imageSrc)]) e.

(** [inMemoryImage.onload] *)
Definition imageOnLoad (srcType : SrcName) (imageSrc : string) (width height : R)
    (e : Engine) : Engine :=
  let e := emit (OnImageLoad imageSrc srcType) e in
  let e := with_imageCache
             (<[imageSrc := {| loaded := true; c_width := width; c_height := height |}]>
                (imageCache e)) e in
  loadDone srcType imageSrc false e.

(** [inMemoryImage.onerror] *)
Definition imageOnError (srcType : SrcName) (imageSrc : string) (e : Engine) : Engine :=
  let e := emit (OnImageLoadError imageSrc srcType) e in
  (* failed to load so set the state loadErrorStatus *)
  let e := setLoadError srcType true e in
  loadDone srcType imageSrc true e.

(** The body of the [forEach] of [loadAllImages] for one role. *)
Definition loadOne (p : Props) (type : SrcName) (e : Engine) : Engine :=
  (* there is no error when we try to load it initially *)
  let e := if truthy (propSrc p type) &&
              default false (loadErrorStatus (state e) !! srcTypeName type)
           then setLoadError type false e else e in
  (* Load unloaded images *)
  match propSrc p type with
  | Some src =>
      if truthy (Some src) && negb (isImageLoaded e (Some src))
      then loadImage type src e else e
  | None => e
  end.

Definition loadAllImages (p : Props) (e : Engine) : Engine :=
  fold_left (fun e type => loadOne p type e) getSrcTypes e.

(** ** Life cycle *)

Definition constructor (p : Props) (box : Rect) : Engine :=
  {| props := p;
     state := {| isClosing := negb (animationDisabled p); shouldAnimate := false;
                 zoomLevel := MIN_ZOOM_LEVEL; offsetX := 0; offsetY := 0;
                 loadErrorStatus := ∅ |};
     gesture := {| currentAction := NONE; eventsSource := ANY; pointerList := [] |};
     moveVars := {| moveStartX := 0; moveStartY := 0;
                    moveStartOffsetX := 0; moveStartOffsetY := 0 |};
     swipeVars := {| swipeStartX := 0; swipeStartY := 0; swipeEndX := 0; swipeEndY := 0 |};
     pinchVars := {| pinchTouchList := []; pinchDistance := 0 |};
     timerVars := {| timeouts := []; preventInnerCloseTimeout := None;
                     resizeTimeout := None; resetScrollTimeout := None |};
     flags := {| preventInnerClose := false; keyPressed := false; moveRequested := false;
                 didUnmount := false; scrollX := 0; scrollY := 0; keyCounter := 0;
                 lastKeyDownTime := 0 |};
     imageCache := ∅;
     env := {| boxRect := box; pending := []; nextTimerId := 1%positive;
               inflight := []; listening := false; log := [] |} |}.

Definition componentDidMount (e : Engine) : Engine :=
  let e := if negb (animationDisabled (props e)) then setIsClosing false e else e in
  let e := setListening true e in
  loadAllImages (props e) e.

(** The key under which an optional source indexes a plain object. *)
Definition dictKey (o : option string) : string := default "undefined" o.

Definition inDict (k : string) (d : list string) : bool := existsb (String.eqb k) d.

(** [this.imageCache[src].loaded = false] *)
Definition markUnloaded (src : string) (e : Engine) : Engine :=
  match imageCache e !! src with
  | Some c =>
      with_imageCache
        (<[src := {| loaded := false; c_width := c_width c; c_height := c_height c |}]>
           (imageCache e)) e
  | None => e
  end.

Definition UNSAFE_componentWillReceiveProps (nextProps : Props) (e : Engine) : Engine :=
  let changed :=
    List.filter (fun t => negb (bool_decide (propSrc (props e) t = propSrc nextProps t)))
                getSrcTypes in
  let sourcesChanged := negb (bool_decide (changed = [])) in
  let prevSrcDict := map (fun t => dictKey (propSrc (props e) t)) changed in
  let nextSrcDict := map (fun t => dictKey (propSrc nextProps t)) changed in
  if sourcesChanged || moveRequested (flags e) then
    (* Reset the loaded state for images not rendered next *)
    let e := fold_left
               (fun e prevSrc =>
                  if negb (inDict prevSrc nextSrcDict) then markUnloaded prevSrc e else e)
               prevSrcDict e in
    let e := setMoveRequested false e in
    (* Load any new images *)
    loadAllImages nextProps e
  else e.

(** React then installs the new props. *)
Definition receiveProps (nextProps : Props) (e : Engine) : Engine :=
  with_props nextProps (UNSAFE_componentWillReceiveProps nextProps e).

Definition componentWillUnmount (e : Engine) : Engine :=
  let e := setDidUnmount true e in
  let e := setListening false e in
  fold_left (fun e tid => browserClearTimeout tid e) (timeouts (timerVars e)) e.

(** ** Timers firing *)

Definition runCallback (cb : TimerCallback) (e : Engine) : Engine :=
  match cb with
  | CbForceUpdate => emit ForceUpdate e
  | CbAllowInnerClose => setPreventInnerCloseTimeout None (setPreventInnerCloseFlag false e)
  | CbResetScroll => setScroll 0 0 e
  | CbStopAnimating => setShouldAnimate false e
  | CbLoadDone t src => loadDone t src false e
  | CbCloseLightbox => emit OnCloseRequest e
  end.

(** A pending timer fires: the browser forgets it and runs the closure
    [this.setTimeout] built, which removes the id from [this.timeouts] and
    then calls the function.  A timer that is not pending cannot fire. *)
Definition fireTimer (id : positive) (e : Engine) : option Engine :=
  t ← List.find (fun t => Pos.eqb (t_id t) id) (pending (env e));
  let e := browserClearTimeout id e in
  let e := setTimeouts (List.filter (fun tid => negb (Pos.eqb tid id)) (timeouts (timerVars e))) e in
  Some (runCallback (t_callback t) e).

(** ** Event handlers *)

(** [onImage] is [isTargetMatchImage(event.target)]. *)
Definition handleMouseDown (x y : R) (onImage : bool) (e : Engine) : option Engine :=
  let '(ok, e) := shouldHandleEvent MOUSE e in
  if ok && onImage
  then multiPointerStart (addPointer (parseMouseEvent x y) e)
  else Some e.

Definition handleMouseMove (x y : R) (e : Engine) : option Engine :=
  let '(ok, e) := shouldHandleEvent MOUSE e in
  if ok then multiPointerMove [parseMouseEvent x y] e else Some e.

Definition handleMouseUp (x y : R) (e : Engine) : option Engine :=
  let '(ok, e) := shouldHandleEvent MOUSE e in
  if ok then multiPointerEnd (removePointer (parseMouseEvent x y) e) else Some e.

(** A changed touch: identifier and client coordinates. *)
Definition Touch : Type := Z * R * R.

Definition parseTouch (t : Touch) : ParsedEvent :=
  parseTouchPointer (fst (fst t)) (snd (fst t)) (snd t).

Definition handleTouchStart (changedTouches : list Touch) (onImage : bool) (e : Engine)
    : option Engine :=
  let '(ok, e) := shouldHandleEvent TOUCH e in
  if ok && onImage
  then multiPointerStart
         (fold_left (fun e t => addPointer (parseTouch t) e) changedTouches e)
  else Some e.

Definition handleTouchMove (changedTouches : list Touch) (e : Engine) : option Engine :=
  let '(ok, e) := shouldHandleEvent TOUCH e in
  if ok then multiPointerMove (map parseTouch changedTouches) e else Some e.

Definition handleTouchEnd (changedTouches : list Touch) (e : Engine) : option Engine :=
  let '(ok, e) := shouldHandleEvent TOUCH e in
  if ok
  then multiPointerEnd
         (fold_left (fun e t => removePointer (parseTouch t) e) changedTouches e)
  else Some e.

Inductive PointerEventType := pointerdown | pointermove | pointerup | pointercancel.

Definition handlePointerEvent (type : PointerEventType) (pointerId : Z) (x y : R)
    (onImage : bool) (e : Engine) : option Engine :=
  let '(ok, e) := shouldHandleEvent POINTER e in
  if ok then
    match type with
    | pointerdown =>
        if onImage
        then multiPointerStart (addPointer (parsePointerEvent pointerId x y) e)
        else Some e
    | pointermove => multiPointerMove [parsePointerEvent pointerId x y] e
    | pointerup | pointercancel =>
        multiPointerEnd (removePointer (parsePointerEvent pointerId x y) e)
    end
  else Some e.

(** ** The engine as a transition system *)

Inductive Event :=
  | MouseDown (x y : R) (onImage : bool)
  | MouseMove (x y : R)
  | MouseUp (x y : R)
  | TouchStart (changedTouches : list Touch) (onImage : bool)
  | TouchMove (changedTouches : list Touch)
  | TouchEnd (changedTouches : list Touch)
  | PointerEv (type : PointerEventType) (pointerId : Z) (x y : R) (onImage : bool)
  | ImageWheel (deltaX deltaY clientX clientY : R)
  | OuterWheel
  | DoubleClick (clientX clientY : R)
  | KeyInput (keyup : bool) (keyCode : Key) (now : R)
  | ZoomInClick
  | ZoomOutClick
  | PrevClick
  | NextClick
  | CloseRequest (keydown : bool)
  | WindowResize
  | Layout (box : Rect)
  | ReceiveProps (nextProps : Props)
  | ImageLoaded (t : SrcName) (src : string) (width height : R)
  | ImageFailed (t : SrcName) (src : string)
  | TimerFires (id : positive)
  | Unmount.

(** Remove the first occurrence of a load in flight. *)
Fixpoint takeLoad (t : SrcName) (src : string) (l : list (SrcName * string))
    : option (list (SrcName * string)) :=
  match l with
  | [] => None
  | x :: l' =>
      if bool_decide (x = (t, src)) then Some l'
      else l'' ← takeLoad t src l'; Some (x :: l'')
  end.

Definition setBoxRect (box : Rect) (e : Engine) : Engine :=
  let v := env e in
  with_env {| boxRect := box; pending := pending v; nextTimerId := nextTimerId v;
              inflight := inflight v; listening := listening v; log := log v |} e.

(** One event.  [None]: the event cannot happen in [e] (a user event on an
    unmounted component, a timer that is not pending, a load that is not
    in flight), or the handler throws. *)
Definition dispatch (ev : Event) (e : Engine) : option Engine :=
  match ev with
  | ImageLoaded t src w h =>
      l ← takeLoad t src (inflight (env e));
      Some (imageOnLoad t src w h (setInflight l e))
  | ImageFailed t src =>
      l ← takeLoad t src (inflight (env e));
      Some (imageOnError t src (setInflight l e))
  | TimerFires id => fireTimer id e
  | _ =>
      if didUnmount (flags e) then None else
      match ev with
      | MouseDown x y onImage => handleMouseDown x y onImage e
      | MouseMove x y => handleMouseMove x y e
      | MouseUp x y => handleMouseUp x y e
      | TouchStart ts onImage => handleTouchStart ts onImage e
      | TouchMove ts => handleTouchMove ts e
      | TouchEnd ts => handleTouchEnd ts e
      | PointerEv type i x y onImage => handlePointerEvent type i x y onImage e
      | ImageWheel dx dy cx cy => Some (handleImageMouseWheel dx dy cx cy e)
      | OuterWheel => Some (handleOuterMousewheel e)
      | DoubleClick cx cy => Some (handleImageDoubleClick cx cy e)
      | KeyInput keyup keyCode now => Some (handleKeyInput keyup keyCode now e)
      | ZoomInClick => Some (handleZoomInButtonClick e)
      | ZoomOutClick => Some (handleZoomOutButtonClick e)
      | PrevClick => Some (requestMovePrev e)
      | NextClick => Some (requestMoveNext e)
      | CloseRequest keydown => Some (requestClose keydown e)
      | WindowResize => Some (handleWindowResize e)
      | Layout box => Some (setBoxRect box e)
      | ReceiveProps nextProps => Some (receiveProps nextProps e)
      | Unmount => Some (componentWillUnmount e)
      | _ => None
      end
  end.

(** A run of events from a state. *)
Fixpoint run (evs : list Event) (e : Engine) : option Engine :=
  match evs with
  | [] => Some e
  | ev :: evs' => e' ← dispatch ev e; run evs' e'
  end.

(** The states the engine can be in: mounted with some props and viewport
    rectangle, then any run of events. *)
Definition reachable (e : Engine) : Prop :=
  exists (p : Props) (box : Rect) (evs : list Event),
    run evs (componentDidMount (constructor p box)) = Some e.

End WithConstants.

(** * Specification-level definitions *)

(** Concrete constants, props and viewport on which the model is evaluated
    in the examples below. *)
Definition sampleConstants : Constants :=
  {| MIN_ZOOM_LEVEL := 0; MAX_ZOOM_LEVEL := 300; ZOOM_RATIO := 1.007;
     ZOOM_BUTTON_INCREMENT_SIZE := 100; WHEEL_MOVE_Y_THRESHOLD := 1;
     MIN_SWIPE_DISTANCE := 200 |}.

Definition sampleProps : Props :=
  {| mainSrc := "b.jpg"; prevSrc := Some "a.jpg"; nextSrc := Some "c.jpg";
     mainSrcThumbnail := None; prevSrcThumbnail := None; nextSrcThumbnail := None;
     enableZoom := true; animationDisabled := false; animationOnKeyInput := false;
     animationDuration := 300; keyRepeatLimit := 180; keyRepeatKeyupBonus := 40;
     imagePadding := 10 |}.

Definition sampleBox : Rect :=
  {| r_width := 800; r_height := 600; r_left := 0; r_top := 0 |}.

(** The component as constructed with the sample props. *)
Definition sampleEngine : Engine := @constructor sampleConstants sampleProps sampleBox.

Section SwipeSpec.
Context {K : Constants}.

(** What [handleSwipeEnd] does before it decides: the action is cleared and
    the swipe positions are zeroed. *)
Definition swipeReset (e : Engine) : Engine :=
  with_swipeVars {| swipeStartX := 0; swipeStartY := 0; swipeEndX := 0; swipeEndY := 0 |}
    (setCurrentAction NONE e).

(** The swipe rule in the words of the spec: whether the end of a swipe of
    [(dx, dy)] in a viewport of width [viewportWidth] commits a navigation,
    and in which direction. *)
Definition swipeCommit (event animating : bool) (dx dy viewportWidth : R)
    (hasPrev hasNext : bool) : option Direction :=
  if event && negb animating && (Rabs dx >=? Rabs dy * 1.5) &&
     ((Rabs dx >=? MIN_SWIPE_DISTANCE) || (Rabs dx >=? viewportWidth / 4))
  then
    if (dx >? 0) && hasPrev then Some Prev
    else if (dx <? 0) && hasNext then Some Next
    else None
  else None.


End SwipeSpec.

(** The constants of the spec's swipe examples ([MIN_SWIPE_DISTANCE = 50]). *)
Definition swipeExampleConstants : Constants :=
  {| MIN_ZOOM_LEVEL := 0; MAX_ZOOM_LEVEL := 300; ZOOM_RATIO := 1.007;
     ZOOM_BUTTON_INCREMENT_SIZE := 100; WHEEL_MOVE_Y_THRESHOLD := 1;
     MIN_SWIPE_DISTANCE := 50 |}.

(** ** Invariants of the pointer registry, the zoom level and the pinch *)

(** Every sample in the registry comes from the active source, and the
    registry is empty while no source is active. *)
Definition registry_ok (e : Engine) : Prop :=
  Forall (fun p => p_source p = Some (eventsSource (gesture e))) (pointerList (gesture e)) /\
  (eventsSource (gesture e) = ANY -> pointerList (gesture e) = []).

(** The samples of the registry that come from [s]. *)
Definition fromSource (s : Source) (l : list ParsedEvent) : list ParsedEvent :=
  List.filter (fun p => bool_decide (p_source p = Some s)) l.

(** A state with the mouse active and one mouse sample registered. *)
Definition mouseDownEngine : Engine :=
  addPointer (parseMouseEvent 10 10) (setEventsSource MOUSE sampleEngine).

(** [e'] shows the same image in the same viewport as [e]: the props, the
    image cache and the viewport rectangle agree. *)
Definition sameView (e e' : Engine) : Prop :=
  props e' = props e /\ imageCache e' = imageCache e /\
  boxRect (env e') = boxRect (env e).

(** An offset lies in the pan range [m]. *)
Definition inPanRange (m : MaxOffsets) (ox oy : R) : Prop :=
  minX m <= ox <= maxX m /\ minY m <= oy <= maxY m.

(** What [handleMoveEnd] does first: the action is cleared and the pan
    start positions are zeroed. *)
Definition moveReset (e : Engine) : Engine :=
  with_moveVars {| moveStartX := 0; moveStartY := 0;
                   moveStartOffsetX := 0; moveStartOffsetY := 0 |}
    (setCurrentAction NONE e).

Section GestureSpec.
Context {K : Constants}.

(** The state in which the entry rule is evaluated: [multiPointerStart]
    (a down event, [atDown = true]) first runs [handleEnd(null)];
    [multiPointerEnd] runs [setPreventInnerClose] and [handleEnd(event)] when
    a gesture is active. *)
Definition afterEndHandler (atDown : bool) (e : Engine) : Engine :=
  if atDown then handleEnd false e
  else if negb (bool_decide (currentAction (gesture e) = NONE))
       then handleEnd true (setPreventInnerClose e)
       else e.

(** The handler of a gesture boundary. *)
Definition gestureBoundary (atDown : bool) (e : Engine) : option Engine :=
  if atDown then multiPointerStart e else multiPointerEnd e.

End GestureSpec.

(** What [handlePinchStart] keeps of a sample: identity and position. *)
Definition pinchPoint (p : ParsedEvent) : ParsedEvent :=
  {| p_id := p_id p; p_source := None; p_x := p_x p; p_y := p_y p |}.

(** Euclidean distance of two samples. *)
Definition distance (a b : ParsedEvent) : R :=
  sqrt ((p_x a - p_x b) ^ 2 + (p_y a - p_y b) ^ 2).

(** The sample props with zoom disabled. *)
Definition noZoomProps : Props :=
  {| mainSrc := "b.jpg"; prevSrc := Some "a.jpg"; nextSrc := Some "c.jpg";
     mainSrcThumbnail := None; prevSrcThumbnail := None; nextSrcThumbnail := None;
     enableZoom := false; animationDisabled := false; animationOnKeyInput := false;
     animationDuration := 300; keyRepeatLimit := 180; keyRepeatKeyupBonus := 40;
     imagePadding := 10 |}.

(** [e'] differs from [e] at most in the load-error flags, the timers, the
    loads in flight, the listeners and the log: what the image loader and
    mounting may touch. *)
Definition loaderFrame (e e' : Engine) : Prop :=
  props e' = props e /\ gesture e' = gesture e /\ moveVars e' = moveVars e /\
  swipeVars e' = swipeVars e /\ pinchVars e' = pinchVars e /\ flags e' = flags e /\
  imageCache e' = imageCache e /\ boxRect (env e') = boxRect (env e) /\
  zoomLevel (state e') = zoomLevel (state e) /\
  offsetX (state e') = offsetX (state e) /\ offsetY (state e') = offsetY (state e) /\
  shouldAnimate (state e') = shouldAnimate (state e).

Section ZoomSpec.
Context {K : Constants}.

(** The anchor of a zoom on one axis, relative to the viewport: the client
    coordinate when one is given, the viewport's centre otherwise. *)
Definition anchorX (e : Engine) (clientX : option R) : R :=
  match clientX with
  | Some cx => cx - r_left (getLightboxRect e)
  | None => r_width (getLightboxRect e) / 2
  end.

Definition anchorY (e : Engine) (clientY : option R) : R :=
  match clientY with
  | Some cy => cy - r_top (getLightboxRect e)
  | None => r_height (getLightboxRect e) / 2
  end.

(** The image-space coordinate shown at viewport coordinate [pointer], on
    one axis: the image of extent [img], scaled by [mult], is centred in
    the viewport of extent [box] and shifted by [offset]. *)
Definition imagePoint (box img offset pointer mult : R) : R :=
  (pointer - ((box - img * mult) / 2 - offset)) / mult.

Definition imagePointX (e : Engine) (info : ImageInfo) (pointerX : R) : R :=
  imagePoint (r_width (getLightboxRect e)) (i_width info) (offsetX (state e))
             pointerX (getZoomMultiplier (zoomLevel (state e))).

Definition imagePointY (e : Engine) (info : ImageInfo) (pointerY : R) : R :=
  imagePoint (r_height (getLightboxRect e)) (i_height info) (offsetY (state e))
             pointerY (getZoomMultiplier (zoomLevel (state e))).

(** The offsets [changeZoom] computes before limiting them. *)
Definition anchoredOffsetX (e : Engine) (info : ImageInfo) (clientX : option R) (next : R) : R :=
  anchoredOffset (r_width (getLightboxRect e)) (i_width info) (offsetX (state e))
                 (anchorX e clientX) (getZoomMultiplier (zoomLevel (state e)))
                 (getZoomMultiplier next).

Definition anchoredOffsetY (e : Engine) (info : ImageInfo) (clientY : option R) (next : R) : R :=
  anchoredOffset (r_height (getLightboxRect e)) (i_height info) (offsetY (state e))
                 (anchorY e clientY) (getZoomMultiplier (zoomLevel (state e)))
                 (getZoomMultiplier next).

(** The viewport invariant of the spec: at the minimum zoom level the
    offset is zero. *)
Definition viewport_ok (e : Engine) : Prop :=
  zoomLevel (state e) = MIN_ZOOM_LEVEL -> offsetX (state e) = 0 /\ offsetY (state e) = 0.

(** The zoom level is within its bounds. *)
Definition zoom_in_range (e : Engine) : Prop :=
  MIN_ZOOM_LEVEL <= zoomLevel (state e) <= MAX_ZOOM_LEVEL.

End ZoomSpec.

(** A 1000 x 1000 viewport at the origin. *)
Definition squareBox : Rect :=
  {| r_width := 1000; r_height := 1000; r_left := 0; r_top := 0 |}.

(** The main image, 1000 x 1000, loaded. *)
Definition squareCache : gmap string CacheEntry :=
  <["b.jpg" := {| loaded := true; c_width := 1000; c_height := 1000 |}]> ∅.

(** The engine at zoom level 2 with the image panned by 7 pixels, inside
    the pan range of that level (about 7.02 pixels either way). *)
Definition zoomedPanned : Engine :=
  setViewport 2 7 0
    (with_imageCache squareCache (@constructor sampleConstants sampleProps squareBox)).

(** The load [loadAllImages] issues for one role of [p] when nothing is
    cached: one for a defined, non-empty source. *)
Definition loadsFor (p : Props) (t : SrcName) : list (SrcName * string) :=
  match propSrc p t with
  | Some s => if truthy (Some s) then [(t, s)] else []
  | None => []
  end.

Definition initialLoads (p : Props) : list (SrcName * string) :=
  flat_map (loadsFor p) getSrcTypes.

Section MountSpec.
Context {K : Constants}.

(** The component after mounting: not closing, listening, and the images of
    the props being loaded. *)
Definition mounted (p : Props) (box : Rect) : Engine :=
  setInflight (initialLoads p) (setListening true (setIsClosing false (constructor p box))).

End MountSpec.

(** While pinching, two samples are captured. *)
Definition pinch_ok (e : Engine) : Prop :=
  currentAction (gesture e) = PINCH -> length (pinchTouchList (pinchVars e)) = 2%nat.

(** The centre [calculatePinchCenter] computes for two samples. *)
Definition pinchCenterX (a b : ParsedEvent) : R := p_x a - (p_x a - p_x b) / 2.
Definition pinchCenterY (a b : ParsedEvent) : R := p_y a - (p_y a - p_y b) / 2.

(** Two captured samples 100 pixels apart, and the engine pinching them
    over the loaded 1000 x 1000 image. *)
Definition pinchA : ParsedEvent :=
  {| p_id := NumId 0; p_source := None; p_x := 100; p_y := 100 |}.
Definition pinchB : ParsedEvent :=
  {| p_id := NumId 1; p_source := None; p_x := 200; p_y := 100 |}.

Definition pinchingEngine : Engine :=
  setPinchVars [pinchA; pinchB] 100
    (setCurrentAction PINCH
       (with_imageCache squareCache (@constructor sampleConstants sampleProps squareBox))).

(** ** The timer bookkeeping *)

(** The ids in [this.timeouts] were all handed out by the browser; while
    the component is mounted they are exactly the ids of the timers pending
    in the browser, in order; after teardown no timer is pending. *)
Definition timers_ok (e : Engine) : Prop :=
  Forall (fun id => (id < nextTimerId (env e))%positive) (timeouts (timerVars e)) /\
  if didUnmount (flags e) then pending (env e) = []
  else map t_id (pending (env e)) = timeouts (timerVars e).

(** What the gesture and timer invariants read of a state. *)
Definition sameCore (e e' : Engine) : Prop :=
  gesture e' = gesture e /\ pinchVars e' = pinchVars e /\
  zoomLevel (state e') = zoomLevel (state e) /\
  timeouts (timerVars e') = timeouts (timerVars e) /\
  pending (env e') = pending (env e) /\
  nextTimerId (env e') = nextTimerId (env e) /\
  didUnmount (flags e') = didUnmount (flags e).

(** [e'] agrees with [e] on the core, up to what [setTimeout] and
    [clearTimeout] do to the timers of a mounted component. *)
Definition timerStep (e e' : Engine) : Prop :=
  gesture e' = gesture e /\ pinchVars e' = pinchVars e /\
  zoomLevel (state e') = zoomLevel (state e) /\
  didUnmount (flags e') = didUnmount (flags e) /\
  (didUnmount (flags e) = false -> timers_ok e -> timers_ok e').

Section InvariantSpec.
Context {K : Constants}.

(** The invariant of the reachable states. *)
Definition Inv (e : Engine) : Prop :=
  registry_ok e /\ (MIN_ZOOM_LEVEL <= MAX_ZOOM_LEVEL -> zoom_in_range e) /\
  pinch_ok e /\ timers_ok e.

End InvariantSpec.

Section MountedInvSpec.
Context {K : Constants}.

(** The invariant of a mounted component. *)
Definition MInv (e : Engine) : Prop := didUnmount (flags e) = false /\ Inv e.

End MountedInvSpec.

(** [e'] differs from [e], within the core, at most in the registry and the
    active source. *)
Definition sameButRegistry (e e' : Engine) : Prop :=
  currentAction (gesture e') = currentAction (gesture e) /\
  pinchVars e' = pinchVars e /\
  zoomLevel (state e') = zoomLevel (state e) /\
  timeouts (timerVars e') = timeouts (timerVars e) /\
  pending (env e') = pending (env e) /\
  nextTimerId (env e') = nextTimerId (env e) /\
  didUnmount (flags e') = didUnmount (flags e).

(** The sample component after one window resize: one timer is pending. *)
Definition resizedEngine : Engine :=
  handleWindowResize (@mounted sampleConstants sampleProps sampleBox).

(** The sample props after the parent replaced the main image by "d.jpg". *)
Definition replacedProps : Props :=
  {| mainSrc := "d.jpg"; prevSrc := Some "a.jpg"; nextSrc := Some "c.jpg";
     mainSrcThumbnail := None; prevSrcThumbnail := None; nextSrcThumbnail := None;
     enableZoom := true; animationDisabled := false; animationOnKeyInput := false;
     animationDuration := 300; keyRepeatLimit := 180; keyRepeatKeyupBonus := 40;
     imagePadding := 10 |}.

(** The error flag of a role, as [loadErrorStatus[type]] is tested. *)
Definition errorFlag (e : Engine) (t : SrcName) : bool :=
  default false (loadErrorStatus (state e) !! srcTypeName t).

(** What a successful load signals: [onImageLoad], and a re-render when the
    role still shows [src] and the component is mounted. *)
Definition loadEffects (e : Engine) (t : SrcName) (src : string) : list Effect :=
  OnImageLoad src t ::
  (if bool_decide (propSrc (props e) t = Some src) && negb (didUnmount (flags e))
   then [ForceUpdate] else []).

(** * Properties *)

(** ** Numbers *)

Lemma num_lt_true (x y : R) : (x <? y) = true <-> x < y.
Proof. unfold num_lt. destruct (Rlt_dec x y); split; (easy || lra). Qed.

Lemma num_lt_false (x y : R) : (x <? y) = false <-> y <= x.
Proof. unfold num_lt. destruct (Rlt_dec x y); split; (easy || lra). Qed.

Lemma num_le_true (x y : R) : (x <=? y) = true <-> x <= y.
Proof. unfold num_le. destruct (Rle_dec x y); split; (easy || lra). Qed.

Lemma num_le_false (x y : R) : (x <=? y) = false <-> y < x.
Proof. unfold num_le. destruct (Rle_dec x y); split; (easy || lra). Qed.

Lemma num_eq_true (x y : R) : (x =? y) = true <-> x = y.
Proof. unfold num_eq. destruct (Req_dec_T x y); split; (easy || lra). Qed.

Lemma num_eq_false (x y : R) : (x =? y) = false <-> x <> y.
Proof. unfold num_eq. destruct (Req_dec_T x y); split; (easy || lra). Qed.

Lemma num_eq_refl (x : R) : (x =? x) = true.
Proof. now apply num_eq_true. Qed.

(** Case analysis on every comparison in sight. *)
Ltac num_cases :=
  repeat match goal with
  | |- context [?x <? ?y] =>
      let H := fresh "Hlt" in
      destruct (x <? y) eqn:H;
      [apply num_lt_true in H | apply num_lt_false in H]
  | |- context [?x <=? ?y] =>
      let H := fresh "Hle" in
      destruct (x <=? y) eqn:H;
      [apply num_le_true in H | apply num_le_false in H]
  | |- context [?x =? ?y] =>
      let H := fresh "Heq" in
      destruct (x =? y) eqn:H;
      [apply num_eq_true in H | apply num_eq_false in H]
  end.

(** Compute the fields of a state written with the update functions. *)
Ltac fields :=
  cbn [props state gesture moveVars swipeVars pinchVars timerVars flags imageCache env
       with_props with_state with_gesture with_moveVars with_swipeVars with_pinchVars
       with_timerVars with_flags with_imageCache with_env
       emit setViewport setShouldAnimate setIsClosing setLoadError
       setCurrentAction setEventsSource setPointerList setPinchVars setScroll
       setPreventInnerCloseFlag setDidUnmount setMoveRequested setKeyState
       setTimeouts setPreventInnerCloseTimeout setResizeTimeout setResetScrollTimeout
       setPending setInflight setListening setBoxRect addPointer removePointer
       isClosing shouldAnimate zoomLevel offsetX offsetY loadErrorStatus
       currentAction eventsSource pointerList
       moveStartX moveStartY moveStartOffsetX moveStartOffsetY
       swipeStartX swipeStartY swipeEndX swipeEndY pinchTouchList pinchDistance
       timeouts preventInnerCloseTimeout resizeTimeout resetScrollTimeout
       preventInnerClose keyPressed moveRequested didUnmount scrollX scrollY keyCounter
       lastKeyDownTime boxRect pending nextTimerId inflight listening log
       p_id p_source p_x p_y parseMouseEvent parseTouchPointer parsePointerEvent
       constructor mainSrc prevSrc nextSrc mainSrcThumbnail prevSrcThumbnail
       nextSrcThumbnail enableZoom animationDisabled animationOnKeyInput
       animationDuration keyRepeatLimit keyRepeatKeyupBonus imagePadding
       r_width r_height r_left r_top getLightboxRect
       fst snd app negb andb orb].

Tactic Notation "fields" "in" hyp(H) :=
  cbn [props state gesture moveVars swipeVars pinchVars timerVars flags imageCache env
       with_props with_state with_gesture with_moveVars with_swipeVars with_pinchVars
       with_timerVars with_flags with_imageCache with_env
       emit setViewport setShouldAnimate setIsClosing setLoadError
       setCurrentAction setEventsSource setPointerList setPinchVars setScroll
       setPreventInnerCloseFlag setDidUnmount setMoveRequested setKeyState
       setTimeouts setPreventInnerCloseTimeout setResizeTimeout setResetScrollTimeout
       setPending setInflight setListening setBoxRect addPointer removePointer
       isClosing shouldAnimate zoomLevel offsetX offsetY loadErrorStatus
       currentAction eventsSource pointerList
       moveStartX moveStartY moveStartOffsetX moveStartOffsetY
       swipeStartX swipeStartY swipeEndX swipeEndY pinchTouchList pinchDistance
       timeouts preventInnerCloseTimeout resizeTimeout resetScrollTimeout
       preventInnerClose keyPressed moveRequested didUnmount scrollX scrollY keyCounter
       lastKeyDownTime boxRect pending nextTimerId inflight listening log
       p_id p_source p_x p_y parseMouseEvent parseTouchPointer parsePointerEvent
       constructor mainSrc prevSrc nextSrc mainSrcThumbnail prevSrcThumbnail
       nextSrcThumbnail enableZoom animationDisabled animationOnKeyInput
       animationDuration keyRepeatLimit keyRepeatKeyupBonus imagePadding
       r_width r_height r_left r_top getLightboxRect
       fst snd app negb andb orb] in H.

(** Settle the [bool_decide]s whose proposition is closed by computation. *)
Ltac enum_decide :=
  repeat first
    [ rewrite bool_decide_eq_true_2 by (reflexivity || assumption)
    | rewrite bool_decide_eq_false_2 by (discriminate || congruence) ].

Lemma clamp_in_range (lo hi v : R) : lo <= hi -> lo <= clamp lo hi v <= hi.
Proof.
  intros H. unfold clamp, Rmin.
  destruct (Rle_dec hi v); unfold Rmax; destruct (Rle_dec _ _); lra.
Qed.

Lemma clamp_id (lo hi v : R) : lo <= v <= hi -> clamp lo hi v = v.
Proof.
  intros H. unfold clamp, Rmin.
  destruct (Rle_dec hi v); unfold Rmax; destruct (Rle_dec _ _); lra.
Qed.

Lemma clamp_changed (lo hi v : R) : lo <= hi -> clamp lo hi v <> v -> v < lo \/ hi < v.
Proof.
  intros H Hne. destruct (Rlt_dec v lo); [now left|].
  destruct (Rlt_dec hi v); [now right|].
  exfalso. apply Hne, clamp_id. lra.
Qed.

(** ** Fitting an image into the viewport *)



(** A 1600 x 900 image in the 800 x 600 viewport with padding 10: the width
    is the constraining dimension. *)
Example getFitSizes_sample :
  getFitSizes sampleEngine 1600 900 false = {| s_width := 780; s_height := 438.75 |}.
Proof.
  unfold getFitSizes, sampleEngine, constructor, getLightboxRect.
  cbn [props env boxRect sampleProps sampleBox imagePadding r_width r_height negb].
  replace (Rmin (600 - 10 * 2) 900) with 580 by (rewrite Rmin_left; lra).
  replace (Rmin (800 - 10 * 2) 1600) with 780 by (rewrite Rmin_left; lra).
  unfold quot_gt. num_cases; try lra. f_equal; lra.
Qed.

(** ** Frame properties of the small updates *)


Lemma log_setTimeout (cb : TimerCallback) (t : R) (e : Engine) :
  log (env (snd (setTimeout cb t e))) = log (env e).
Proof. reflexivity. Qed.

Lemma state_setTimeout (cb : TimerCallback) (t : R) (e : Engine) :
  state (snd (setTimeout cb t e)) = state e.
Proof. reflexivity. Qed.

Lemma pending_setTimeout (cb : TimerCallback) (t : R) (e : Engine) :
  pending (env (snd (setTimeout cb t e))) =
  pending (env e) ++ [{| t_id := nextTimerId (env e); t_delay := t; t_callback := cb |}].
Proof. reflexivity. Qed.

Section Swipe.
Context {K : Constants}.


Lemma swipeCommit_Some (event animating : bool) (dx dy w : R) (hasPrev hasNext : bool)
    (dir : Direction) :
  swipeCommit event animating dx dy w hasPrev hasNext = Some dir <->
  event = true /\ animating = false /\
  Rabs dx >= Rabs dy * 1.5 /\
  (Rabs dx >= MIN_SWIPE_DISTANCE \/ Rabs dx >= w / 4) /\
  (dir = Prev /\ dx > 0 /\ hasPrev = true \/ dir = Next /\ dx < 0 /\ hasNext = true).
Proof.
  unfold swipeCommit.
  destruct event, animating, hasPrev, hasNext, dir; cbn [andb orb negb];
    num_cases; cbn [andb orb negb];
    (split; [intros H; try discriminate H; repeat split; try lra; auto; try (left; lra); try (right; lra);
             try (left; repeat split; auto; lra); try (right; repeat split; auto; lra)
            | intros (He & Ha & H1 & H2 & H3);
              try discriminate He; try discriminate Ha;
              destruct H2 as [H2|H2]; destruct H3 as [(Hd & H3 & Hp)|(Hd & H3 & Hp)];
              try discriminate Hd; try discriminate Hp; try reflexivity; exfalso; lra]).
Qed.


End Swipe.

Section SwipeExamples.
#[local] Existing Instance swipeExampleConstants.

(** The two examples of the spec, with [MIN_SWIPE_DISTANCE = 50]. *)
Example swipe_commits_next :
  swipeCommit true false (-120) 10 800 true true = Some Next.
Proof.
  apply swipeCommit_Some. cbn [MIN_SWIPE_DISTANCE swipeExampleConstants].
  rewrite (Rabs_left (-120)) by lra. rewrite (Rabs_right 10) by lra.
  repeat split; try lra. right. repeat split; lra.
Qed.

Example swipe_not_horizontal_enough :
  swipeCommit true false 30 25 800 true true = None.
Proof.
  destruct (swipeCommit true false 30 25 800 true true) as [dir|] eqn:H; [|reflexivity].
  apply swipeCommit_Some in H. destruct H as (_ & _ & H & _).
  rewrite (Rabs_right 30), (Rabs_right 25) in H by lra. lra.
Qed.

End SwipeExamples.

(** ** Source arbitration *)

Section Arbitration.
Context {K : Constants}.

Lemma gesture_setTimeout (cb : TimerCallback) (t : R) (e : Engine) :
  gesture (snd (setTimeout cb t e)) = gesture e.
Proof. reflexivity. Qed.

Lemma gesture_clearTimeout (id : option positive) (e : Engine) :
  gesture (clearTimeout id e) = gesture e.
Proof. destruct id; reflexivity. Qed.

Lemma gesture_setPreventInnerClose (e : Engine) :
  gesture (setPreventInnerClose e) = gesture e.
Proof.
  unfold setPreventInnerClose.
  destruct (preventInnerCloseTimeout (timerVars e)); reflexivity.
Qed.

Lemma gesture_requestMove (d : Direction) (e : Engine) :
  gesture (requestMove d e) = gesture e.
Proof.
  unfold requestMove.
  destruct (negb (animationDisabled (props e)) && _), d; reflexivity.
Qed.

Lemma gesture_handleMoveEnd (e : Engine) :
  gesture (handleMoveEnd e) = gesture (setCurrentAction NONE e).
Proof.
  unfold handleMoveEnd. destruct (negb _ || negb _); reflexivity.
Qed.

Lemma gesture_handleSwipeEnd (event : bool) (e : Engine) :
  gesture (handleSwipeEnd event e) = gesture (setCurrentAction NONE e).
Proof.
  unfold handleSwipeEnd.
  repeat match goal with
  | |- context [if ?c then _ else _] => destruct c
  end; unfold requestMovePrev, requestMoveNext;
    rewrite ?gesture_requestMove; reflexivity.
Qed.

(** The end handlers leave the registry and the active source alone and
    clear the action. *)
Lemma gesture_handleEnd (event : bool) (e : Engine) :
  pointerList (gesture (handleEnd event e)) = pointerList (gesture e) /\
  eventsSource (gesture (handleEnd event e)) = eventsSource (gesture e) /\
  currentAction (gesture (handleEnd event e)) = NONE.
Proof.
  unfold handleEnd. destruct (currentAction (gesture e)) eqn:Ha.
  - auto.
  - rewrite gesture_handleMoveEnd. auto.
  - rewrite gesture_handleSwipeEnd. auto.
  - auto.
Qed.

Lemma fromSource_all (s : Source) (l : list ParsedEvent) :
  Forall (fun p => p_source p = Some s) l -> fromSource s l = l.
Proof.
  unfold fromSource. induction 1 as [|p l Hp _ IH]; [reflexivity|].
  cbn. rewrite bool_decide_eq_true_2 by exact Hp. now rewrite IH.
Qed.

Lemma fromSource_none (s s' : Source) (l : list ParsedEvent) :
  s <> s' -> Forall (fun p => p_source p = Some s') l -> fromSource s l = [].
Proof.
  unfold fromSource. intros Hne. induction 1 as [|p l Hp _ IH]; [reflexivity|].
  cbn. rewrite bool_decide_eq_false_2; [exact IH|]. rewrite Hp. congruence.
Qed.

Lemma fromSource_Forall (s : Source) (l : list ParsedEvent) :
  Forall (fun p => p_source p = Some s) (fromSource s l).
Proof.
  unfold fromSource. induction l as [|p l IH]; cbn; [constructor|].
  destruct (bool_decide (p_source p = Some s)) eqn:Hb; [|exact IH].
  constructor; [now apply bool_decide_eq_true in Hb|exact IH].
Qed.

Ltac arb_finish :=
  repeat split; auto; try constructor; try (intros H; discriminate H);
  try (now apply fromSource_Forall); try reflexivity; try congruence.

(** C4. Source arbitration, in a state whose registry is consistent with
    the active source.
    - A sample of the active source, or any sample when no source is
      active, is accepted; its source is the active one afterwards and the
      registry is untouched.
    - A mouse sample is rejected, with no change, while touch or pointer
      is active.
    - A touch sample is always accepted: the active source becomes touch
      and the registry is cut down to its touch samples.
    - A pointer sample is accepted exactly when the active source is
      pointer, mouse or none; arriving on an active mouse it makes pointer
      the active source and cuts the registry down to its pointer samples;
      on an active touch it is rejected with no change.
    - [multiPointerEnd] on an empty registry sets the active source back to
      [ANY]. *)
Theorem source_arbitration (e : Engine) :
  registry_ok e ->
  (forall s : Source,
     eventsSource (gesture e) = s \/ eventsSource (gesture e) = ANY ->
     fst (shouldHandleEvent s e) = true /\
     eventsSource (gesture (snd (shouldHandleEvent s e))) = s /\
     pointerList (gesture (snd (shouldHandleEvent s e))) = pointerList (gesture e)) /\
  (eventsSource (gesture e) = TOUCH \/ eventsSource (gesture e) = POINTER ->
     shouldHandleEvent MOUSE e = (false, e)) /\
  (fst (shouldHandleEvent TOUCH e) = true /\
   eventsSource (gesture (snd (shouldHandleEvent TOUCH e))) = TOUCH /\
   pointerList (gesture (snd (shouldHandleEvent TOUCH e))) =
     fromSource TOUCH (pointerList (gesture e)) /\
   registry_ok (snd (shouldHandleEvent TOUCH e))) /\
  ((fst (shouldHandleEvent POINTER e) = true <->
      eventsSource (gesture e) = POINTER \/ eventsSource (gesture e) = MOUSE \/
      eventsSource (gesture e) = ANY) /\
   (eventsSource (gesture e) = MOUSE ->
      eventsSource (gesture (snd (shouldHandleEvent POINTER e))) = POINTER /\
      pointerList (gesture (snd (shouldHandleEvent POINTER e))) =
        fromSource POINTER (pointerList (gesture e))) /\
   (eventsSource (gesture e) = TOUCH -> shouldHandleEvent POINTER e = (false, e)) /\
   registry_ok (snd (shouldHandleEvent POINTER e))) /\
  (pointerList (gesture e) = [] ->
     exists e', multiPointerEnd e = Some e' /\
                eventsSource (gesture e') = ANY /\ pointerList (gesture e') = []).
Proof.
  intros [Hall Hany].
  split; [|split; [|split; [|split]]].
  - intros s [Hs|Hs]; unfold shouldHandleEvent.
    + rewrite bool_decide_eq_true_2 by exact Hs. auto.
    + destruct (bool_decide (eventsSource (gesture e) = s)) eqn:Hb.
      * apply bool_decide_eq_true in Hb. auto.
      * rewrite bool_decide_eq_true_2 by exact Hs. auto.
  - intros Hs. unfold shouldHandleEvent.
    destruct Hs as [Hs|Hs]; rewrite Hs; enum_decide; reflexivity.
  - unfold shouldHandleEvent, registry_ok.
    destruct (eventsSource (gesture e)) eqn:Hs; enum_decide; cbn;
      try (arb_finish; fail).
    + rewrite (Hany eq_refl). arb_finish.
    + rewrite Hs, fromSource_all by exact Hall. arb_finish.
  - unfold shouldHandleEvent, registry_ok.
    destruct (eventsSource (gesture e)) eqn:Hs; enum_decide; cbn;
      try (arb_finish; fail).
    + rewrite (Hany eq_refl). arb_finish.
    + rewrite Hs. arb_finish.
      all: try (intros [H|[H|H]]; discriminate H).
      all: try (intros H; now apply Hany in H).
    + rewrite Hs. arb_finish.
      all: try (intros H; now apply Hany in H).
  - intros Hnil. unfold multiPointerEnd, startForPointers.
    set (e1 := if negb (bool_decide (currentAction (gesture e) = NONE)) then _ else e).
    assert (Hl : pointerList (gesture e1) = []).
    { subst e1. destruct (negb _); [|exact Hnil].
      destruct (gesture_handleEnd true (setPreventInnerClose e)) as (-> & _ & _).
      now rewrite gesture_setPreventInnerClose. }
    rewrite Hl. eexists. split; [reflexivity|]. cbn. auto.
Qed.

End Arbitration.

Lemma source_arbitration_witness :
  registry_ok mouseDownEngine /\
  eventsSource (gesture (snd (shouldHandleEvent POINTER mouseDownEngine))) = POINTER /\
  pointerList (gesture (snd (shouldHandleEvent POINTER mouseDownEngine))) =
    fromSource POINTER (pointerList (gesture mouseDownEngine)).
Proof.
  assert (H : registry_ok mouseDownEngine).
  { split; [repeat constructor | intros H; discriminate H]. }
  split; [exact H|].
  apply (proj1 (proj2 (proj1 (proj2 (proj2 (proj2
           (@source_arbitration sampleConstants mouseDownEngine H))))))).
  reflexivity.
Defined.

(** ** The pan range and the end of a pan *)

Section PanRange.
Context {K : Constants}.

Lemma isImageLoaded_ext (e e' : Engine) (o : option string) :
  imageCache e' = imageCache e -> isImageLoaded e' o = isImageLoaded e o.
Proof. intros H. unfold isImageLoaded, cacheEntryOf. now rewrite H. Qed.

Lemma getFitSizes_ext (e e' : Engine) (w h : R) (stretch : bool) :
  sameView e e' -> getFitSizes e' w h stretch = getFitSizes e w h stretch.
Proof.
  intros (Hp & _ & Hb). unfold getFitSizes, getLightboxRect. now rewrite Hp, Hb.
Qed.

Lemma getBestImageForType_ext (e e' : Engine) (t : SrcName) :
  sameView e e' -> getBestImageForType e' t = getBestImageForType e t.
Proof.
  intros Hv. pose proof Hv as (Hp & Hc & Hb). unfold getBestImageForType.
  rewrite !(isImageLoaded_ext e e') by exact Hc.
  unfold cacheEntryOf. rewrite Hp, Hc.
  destruct (isImageLoaded e (propSrc (props e) t)).
  - destruct (propSrc (props e) t); [|reflexivity].
    destruct (imageCache e !! s); [|reflexivity].
    now rewrite (getFitSizes_ext e e').
  - destruct (isImageLoaded e (propThumbnail (props e) t)); [|reflexivity].
    destruct (propThumbnail (props e) t); [|reflexivity].
    destruct (imageCache e !! s); [|reflexivity].
    now rewrite (getFitSizes_ext e e').
Qed.

Lemma getMaxOffsets_ext (e e' : Engine) :
  sameView e e' -> zoomLevel (state e') = zoomLevel (state e) ->
  getMaxOffsets e' = getMaxOffsets e.
Proof.
  intros Hv Hz. pose proof Hv as (Hp & Hc & Hb). unfold getMaxOffsets.
  rewrite (getBestImageForType_ext e e') by exact Hv.
  unfold getLightboxRect. now rewrite Hz, Hb.
Qed.

(** The pan range is symmetric about the centre and not empty. *)
Lemma getMaxOffsets_symmetric (e : Engine) :
  0 <= maxX (getMaxOffsets e) /\ 0 <= maxY (getMaxOffsets e) /\
  minX (getMaxOffsets e) = - maxX (getMaxOffsets e) /\
  minY (getMaxOffsets e) = - maxY (getMaxOffsets e).
Proof.
  unfold getMaxOffsets. destruct (getBestImageForType e MainSrc) as [info|];
    cbn [maxX maxY minX minY]; [|repeat split; lra].
  num_cases; repeat split; lra.
Qed.

(** The pan range, per axis, as the spec describes it. *)
Lemma getMaxOffsets_formula (e : Engine) :
  match getBestImageForType e MainSrc with
  | None => getMaxOffsets e = {| maxX := 0; minX := 0; maxY := 0; minY := 0 |}
  | Some info =>
      let m := getZoomMultiplier (zoomLevel (state e)) in
      let box := getLightboxRect e in
      (r_width box <= m * i_width info ->
         maxX (getMaxOffsets e) = (m * i_width info - r_width box) / 2) /\
      (m * i_width info < r_width box ->
         maxX (getMaxOffsets e) = (r_width box - m * i_width info) / 2) /\
      (r_height box <= m * i_height info ->
         maxY (getMaxOffsets e) = (m * i_height info - r_height box) / 2) /\
      (m * i_height info < r_height box ->
         maxY (getMaxOffsets e) = (r_height box - m * i_height info) / 2) /\
      minX (getMaxOffsets e) = - maxX (getMaxOffsets e) /\
      minY (getMaxOffsets e) = - maxY (getMaxOffsets e)
  end.
Proof.
  pose proof (getMaxOffsets_symmetric e) as (_ & _ & Hx & Hy).
  unfold getMaxOffsets in *.
  destruct (getBestImageForType e MainSrc) as [info|]; [|reflexivity].
  cbn [maxX maxY minX minY] in *. cbn zeta.
  repeat split; try exact Hx; try exact Hy; intros H; num_cases; lra.
Qed.

Lemma sameView_moveReset (e : Engine) : sameView e (moveReset e).
Proof. repeat split. Qed.

(** C5. Ending a pan clamps the offset, componentwise, into the range
    [getMaxOffsets] computes for the current zoom level; the zoom level and
    the range itself are not changed.  That range is, per axis,
    [(m * image - viewport) / 2] on either side of the centre when the
    scaled image is at least as large as the viewport,
    [(viewport - m * image) / 2] when it is smaller, and [(0, 0)] when no
    image size is known.  An offset already in the range is left alone: the
    React state is unchanged and no timer is created.  An offset outside it
    is replaced by the clamped one, [shouldAnimate] is set, and a timer that
    clears [shouldAnimate] is started for [animationDuration]. *)
Theorem handleMoveEnd_clamps (e : Engine) :
  let m := getMaxOffsets e in
  let e' := handleMoveEnd e in
  inPanRange m (offsetX (state e')) (offsetY (state e')) /\
  offsetX (state e') = clamp (minX m) (maxX m) (offsetX (state e)) /\
  offsetY (state e') = clamp (minY m) (maxY m) (offsetY (state e)) /\
  zoomLevel (state e') = zoomLevel (state e) /\
  getMaxOffsets e' = m /\
  currentAction (gesture e') = NONE /\
  match getBestImageForType e MainSrc with
  | None => m = {| maxX := 0; minX := 0; maxY := 0; minY := 0 |}
  | Some info =>
      let z := getZoomMultiplier (zoomLevel (state e)) in
      let box := getLightboxRect e in
      (r_width box <= z * i_width info -> maxX m = (z * i_width info - r_width box) / 2) /\
      (z * i_width info < r_width box -> maxX m = (r_width box - z * i_width info) / 2) /\
      (r_height box <= z * i_height info -> maxY m = (z * i_height info - r_height box) / 2) /\
      (z * i_height info < r_height box -> maxY m = (r_height box - z * i_height info) / 2) /\
      minX m = - maxX m /\ minY m = - maxY m
  end /\
  (inPanRange m (offsetX (state e)) (offsetY (state e)) ->
     e' = moveReset e /\ state e' = state e /\ pending (env e') = pending (env e)) /\
  (~ inPanRange m (offsetX (state e)) (offsetY (state e)) ->
     shouldAnimate (state e') = true /\
     pending (env e') =
       pending (env e) ++ [{| t_id := nextTimerId (env e);
                              t_delay := animationDuration (props e);
                              t_callback := CbStopAnimating |}] /\
     timeouts (timerVars e') = timeouts (timerVars e) ++ [nextTimerId (env e)]).
Proof.
  intros m e'.
  pose proof (getMaxOffsets_symmetric e) as (HX & HY & HmX & HmY). fold m in HX, HY, HmX, HmY.
  assert (Hm : getMaxOffsets (moveReset e) = m)
    by (apply getMaxOffsets_ext; [apply sameView_moveReset|reflexivity]).
  assert (Hcx := clamp_in_range (minX m) (maxX m) (offsetX (state e)) ltac:(lra)).
  assert (Hcy := clamp_in_range (minY m) (maxY m) (offsetY (state e)) ltac:(lra)).
  assert (He' : e' =
    if negb (clamp (minX m) (maxX m) (offsetX (state e)) =? offsetX (state e)) ||
       negb (clamp (minY m) (maxY m) (offsetY (state e)) =? offsetY (state e))
    then snd (setTimeout CbStopAnimating (animationDuration (props e))
                (setShouldAnimate true
                   (setViewport (zoomLevel (state e))
                      (clamp (minX m) (maxX m) (offsetX (state e)))
                      (clamp (minY m) (maxY m) (offsetY (state e))) (moveReset e))))
    else moveReset e).
  { subst e'. unfold handleMoveEnd. fold (moveReset e). rewrite Hm. reflexivity. }
  pose proof (getMaxOffsets_formula e) as Hf. fold m in Hf.
  destruct (negb (clamp (minX m) (maxX m) (offsetX (state e)) =? offsetX (state e)) ||
            negb (clamp (minY m) (maxY m) (offsetY (state e)) =? offsetY (state e)))
    eqn:Hch; rewrite He'.
  - cbn [state snd setTimeout browserSetTimeout setTimeouts setPending with_timerVars
         with_env with_state setShouldAnimate setViewport offsetX offsetY zoomLevel
         shouldAnimate env pending timerVars timeouts gesture currentAction].
    split; [split; assumption|]. do 3 (split; [reflexivity|]).
    split; [apply getMaxOffsets_ext; [repeat split|reflexivity]|].
    split; [reflexivity|]. split; [exact Hf|]. split.
    + intros (Hx & Hy). exfalso.
      rewrite !clamp_id, !num_eq_refl in Hch by assumption. discriminate Hch.
    + intros _. repeat split.
  - apply orb_false_elim in Hch as [Hx Hy].
    apply negb_false_iff, num_eq_true in Hx. apply negb_false_iff, num_eq_true in Hy.
    rewrite Hx in Hcx. rewrite Hy in Hcy.
    split; [split; assumption|]. split; [now rewrite Hx|]. split; [now rewrite Hy|].
    split; [reflexivity|]. split; [exact Hm|]. split; [reflexivity|].
    split; [exact Hf|]. split.
    + intros _. repeat split.
    + intros Hout. exfalso. apply Hout. split; assumption.
Qed.

End PanRange.

(** ** Entering a gesture *)

Section GestureEntry.
Context {K : Constants}.

Lemma props_setTimeout (cb : TimerCallback) (t : R) (e : Engine) :
  props (snd (setTimeout cb t e)) = props e.
Proof. reflexivity. Qed.

Lemma props_requestMove (d : Direction) (e : Engine) : props (requestMove d e) = props e.
Proof.
  unfold requestMove.
  destruct (negb (animationDisabled (props e)) && _), d; reflexivity.
Qed.

Lemma props_handleEnd (event : bool) (e : Engine) : props (handleEnd event e) = props e.
Proof.
  unfold handleEnd. destruct (currentAction (gesture e)); try reflexivity.
  - unfold handleMoveEnd. destruct (negb _ || negb _); reflexivity.
  - unfold handleSwipeEnd.
    repeat match goal with
    | |- context [if ?c then _ else _] => destruct c
    end; unfold requestMovePrev, requestMoveNext;
      rewrite ?props_requestMove; reflexivity.
Qed.

Lemma props_setPreventInnerClose (e : Engine) : props (setPreventInnerClose e) = props e.
Proof.
  unfold setPreventInnerClose.
  destruct (preventInnerCloseTimeout (timerVars e)); reflexivity.
Qed.

(** The end handlers leave the registry, the active source and the props
    alone, and no action is active after them. *)
Lemma afterEndHandler_frame (atDown : bool) (e : Engine) :
  pointerList (gesture (afterEndHandler atDown e)) = pointerList (gesture e) /\
  eventsSource (gesture (afterEndHandler atDown e)) = eventsSource (gesture e) /\
  currentAction (gesture (afterEndHandler atDown e)) = NONE /\
  props (afterEndHandler atDown e) = props e.
Proof.
  unfold afterEndHandler. destruct atDown.
  - destruct (gesture_handleEnd false e) as (Hl & Hs & Ha).
    now rewrite Hl, Hs, Ha, props_handleEnd.
  - destruct (bool_decide (currentAction (gesture e) = NONE)) eqn:Hb; cbn [negb].
    + apply bool_decide_eq_true in Hb. auto.
    + destruct (gesture_handleEnd true (setPreventInnerClose e)) as (Hl & Hs & Ha).
      now rewrite Hl, Hs, Ha, props_handleEnd, gesture_setPreventInnerClose,
        props_setPreventInnerClose.
Qed.

Lemma gestureBoundary_unfold (atDown : bool) (e : Engine) :
  gestureBoundary atDown e =
  startForPointers (if atDown then (fun e => e) else setEventsSource ANY)
                   (afterEndHandler atDown e).
Proof. destruct atDown; reflexivity. Qed.

(** With zoom disabled neither Pinch nor Pan is entered. *)
Lemma startForPointers_no_zoom (onZero : Engine -> Engine) (e : Engine) :
  enableZoom (props e) = false ->
  length (pointerList (gesture e)) = 2%nat \/
  length (pointerList (gesture e)) = 1%nat /\ MIN_ZOOM_LEVEL < zoomLevel (state e) ->
  startForPointers onZero e = Some (emit PreventDefault e).
Proof.
  intros Hen Hcase. unfold startForPointers.
  destruct Hcase as [Hlen|[Hlen Hz]].
  - destruct (pointerList (gesture e)) as [|a [|b [|c l]]]; try discriminate Hlen.
    unfold handlePinchStart.
    change (props (emit PreventDefault e)) with (props e). now rewrite Hen.
  - destruct (pointerList (gesture e)) as [|a [|b l]]; try discriminate Hlen.
    unfold decideMoveOrSwipe, handleMoveStart.
    change (zoomLevel (state (emit PreventDefault e))) with (zoomLevel (state e)).
    change (props (emit PreventDefault e)) with (props e).
    now rewrite (proj2 (num_le_false _ _) Hz), Hen.
Qed.

(** C7, as the code has it.  At a gesture boundary, a down event
    ([multiPointerStart]) or an end event ([multiPointerEnd]), let [e1] be
    the state after the previous gesture's end handler has run; no action
    is active in [e1].
    - One active pointer and a zoom level at (or below) the minimum: Swipe
      is entered, from the pointer's position.
    - One active pointer above the minimum zoom, zoom enabled: Pan (MOVE)
      is entered, recording the pointer's position and the current offset.
    - Two active pointers, zoom enabled: Pinch is entered, whatever the
      mode before, with both pointers captured by identity and position and
      their distance stored.
    - More than two active pointers: nothing changes, no gesture starts.
    - Zoom disabled: neither Pan nor Pinch is entered; no gesture starts. *)
Theorem gesture_entry_rule (atDown : bool) (e : Engine) :
  let e1 := afterEndHandler atDown e in
  currentAction (gesture e1) = NONE /\
  pointerList (gesture e1) = pointerList (gesture e) /\
  (forall p, pointerList (gesture e) = [p] ->
     zoomLevel (state e1) <= MIN_ZOOM_LEVEL ->
     exists e', gestureBoundary atDown e = Some e' /\
       currentAction (gesture e') = SWIPE /\
       swipeVars e' = {| swipeStartX := p_x p; swipeStartY := p_y p;
                         swipeEndX := p_x p; swipeEndY := p_y p |}) /\
  (forall p, pointerList (gesture e) = [p] ->
     MIN_ZOOM_LEVEL < zoomLevel (state e1) ->
     enableZoom (props e) = true ->
     exists e', gestureBoundary atDown e = Some e' /\
       currentAction (gesture e') = MOVE /\
       moveVars e' = {| moveStartX := p_x p; moveStartY := p_y p;
                        moveStartOffsetX := offsetX (state e1);
                        moveStartOffsetY := offsetY (state e1) |}) /\
  (forall a b, pointerList (gesture e) = [a; b] ->
     enableZoom (props e) = true ->
     exists e', gestureBoundary atDown e = Some e' /\
       currentAction (gesture e') = PINCH /\
       pinchTouchList (pinchVars e') = [pinchPoint a; pinchPoint b] /\
       pinchDistance (pinchVars e') = distance a b) /\
  ((2 < length (pointerList (gesture e)))%nat ->
     gestureBoundary atDown e = Some e1) /\
  (enableZoom (props e) = false ->
     (length (pointerList (gesture e)) = 2%nat \/
      length (pointerList (gesture e)) = 1%nat /\ MIN_ZOOM_LEVEL < zoomLevel (state e1)) ->
     gestureBoundary atDown e = Some (emit PreventDefault e1) /\
     currentAction (gesture (emit PreventDefault e1)) = NONE).
Proof.
  intros e1.
  destruct (afterEndHandler_frame atDown e) as (Hl & Hs & Ha & Hp). fold e1 in Hl, Hs, Ha, Hp.
  rewrite gestureBoundary_unfold. fold e1.
  split; [exact Ha|]. split; [exact Hl|].
  split; [|split; [|split; [|split]]].
  - intros p Hp1 Hz. unfold startForPointers. rewrite Hl, Hp1. unfold decideMoveOrSwipe.
    change (zoomLevel (state (emit PreventDefault e1))) with (zoomLevel (state e1)).
    rewrite (proj2 (num_le_true _ _) Hz).
    eexists. split; [reflexivity|]. split; reflexivity.
  - intros p Hp1 Hz Hen. unfold startForPointers. rewrite Hl, Hp1.
    unfold decideMoveOrSwipe, handleMoveStart.
    change (zoomLevel (state (emit PreventDefault e1))) with (zoomLevel (state e1)).
    change (props (emit PreventDefault e1)) with (props e1).
    rewrite (proj2 (num_le_false _ _) Hz), Hp, Hen.
    eexists. split; [reflexivity|]. split; reflexivity.
  - intros a b Hab Hen. unfold startForPointers. rewrite Hl, Hab. unfold handlePinchStart.
    change (props (emit PreventDefault e1)) with (props e1).
    rewrite Hp, Hen. cbn [negb map calculatePinchDistance mbind option_bind].
    eexists. split; [reflexivity|]. repeat split.
  - intros Hlen. unfold startForPointers. rewrite Hl.
    destruct (pointerList (gesture e)) as [|a [|b [|c l]]];
      cbn in Hlen; try lia. reflexivity.
  - intros Hen Hcase.
    change (currentAction (gesture (emit PreventDefault e1)))
      with (currentAction (gesture e1)).
    split; [|exact Ha].
    apply startForPointers_no_zoom; [now rewrite Hp|now rewrite Hl].
Qed.

End GestureEntry.

(** ** Frame properties of the image loader and of mounting *)

Lemma loaderFrame_refl (e : Engine) : loaderFrame e e.
Proof. repeat split. Qed.

Lemma loaderFrame_trans (e1 e2 e3 : Engine) :
  loaderFrame e1 e2 -> loaderFrame e2 e3 -> loaderFrame e1 e3.
Proof.
  unfold loaderFrame. intros H1 H2.
  destruct H1 as (?&?&?&?&?&?&?&?&?&?&?&?), H2 as (?&?&?&?&?&?&?&?&?&?&?&?).
  repeat split; congruence.
Qed.

Lemma loaderFrame_loadImage (t : SrcName) (src : string) (e : Engine) :
  loaderFrame e (loadImage t src e).
Proof. unfold loadImage. destruct (isImageLoaded e (Some src)); repeat split. Qed.

Lemma loaderFrame_loadOne (p : Props) (t : SrcName) (e : Engine) :
  loaderFrame e (loadOne p t e).
Proof.
  unfold loadOne.
  set (e1 := if truthy (propSrc p t) && _ then setLoadError t false e else e).
  assert (H1 : loaderFrame e e1) by (subst e1; destruct (_ && _); repeat split).
  destruct (propSrc p t) as [src|]; [|exact H1].
  destruct (truthy (Some src) && negb (isImageLoaded e1 (Some src))); [|exact H1].
  eapply loaderFrame_trans; [exact H1|apply loaderFrame_loadImage].
Qed.

Lemma loaderFrame_loadAllImages (p : Props) (e : Engine) :
  loaderFrame e (loadAllImages p e).
Proof.
  unfold loadAllImages. generalize getSrcTypes. intros l. revert e.
  induction l as [|t l IH]; intros e; [apply loaderFrame_refl|].
  cbn [fold_left]. eapply loaderFrame_trans; [apply loaderFrame_loadOne|apply IH].
Qed.

Lemma componentDidMount_frame (e : Engine) :
  props (componentDidMount e) = props e /\
  gesture (componentDidMount e) = gesture e /\
  flags (componentDidMount e) = flags e /\
  imageCache (componentDidMount e) = imageCache e /\
  boxRect (env (componentDidMount e)) = boxRect (env e) /\
  zoomLevel (state (componentDidMount e)) = zoomLevel (state e) /\
  offsetX (state (componentDidMount e)) = offsetX (state e) /\
  offsetY (state (componentDidMount e)) = offsetY (state e).
Proof.
  unfold componentDidMount.
  set (e1 := setListening true _).
  assert (H1 : loaderFrame e e1).
  { subst e1. destruct (negb (animationDisabled (props e))); repeat split. }
  pose proof (loaderFrame_trans _ _ _ H1 (loaderFrame_loadAllImages (props e1) e1)) as H.
  destruct H as (?&?&?&?&?&?&?&?&?&?&?&?). repeat split; assumption.
Qed.

(** ** [changeZoom], case by case *)

Section Zoom.
Context {K : Constants}.

Lemma getZoomMultiplier_pos (z : R) : 0 < getZoomMultiplier z.
Proof. unfold getZoomMultiplier, Rpower. apply exp_pos. Qed.

Lemma changeZoom_disabled (z : R) (cx cy : option R) (e : Engine) :
  enableZoom (props e) = false -> changeZoom z cx cy e = e.
Proof. intros H. unfold changeZoom. now rewrite H. Qed.

Lemma changeZoom_same (z : R) (cx cy : option R) (e : Engine) :
  clamp MIN_ZOOM_LEVEL MAX_ZOOM_LEVEL z = zoomLevel (state e) -> changeZoom z cx cy e = e.
Proof.
  intros H. unfold changeZoom. destruct (negb (enableZoom (props e))); [reflexivity|].
  now rewrite (proj2 (num_eq_true _ _) H).
Qed.

Lemma changeZoom_reset (z : R) (cx cy : option R) (e : Engine) :
  enableZoom (props e) = true ->
  clamp MIN_ZOOM_LEVEL MAX_ZOOM_LEVEL z <> zoomLevel (state e) ->
  clamp MIN_ZOOM_LEVEL MAX_ZOOM_LEVEL z = MIN_ZOOM_LEVEL ->
  changeZoom z cx cy e = setViewport MIN_ZOOM_LEVEL 0 0 e.
Proof.
  intros Hen Hne Hmin. unfold changeZoom. rewrite Hen. cbn [negb].
  rewrite (proj2 (num_eq_false _ _) Hne), (proj2 (num_eq_true _ _) Hmin).
  now rewrite Hmin.
Qed.

Lemma changeZoom_no_image (z : R) (cx cy : option R) (e : Engine) :
  clamp MIN_ZOOM_LEVEL MAX_ZOOM_LEVEL z <> MIN_ZOOM_LEVEL ->
  getBestImageForType e MainSrc = None ->
  changeZoom z cx cy e = e.
Proof.
  intros Hmin Hno. unfold changeZoom.
  destruct (negb (enableZoom (props e))); [reflexivity|].
  destruct (_ =? zoomLevel (state e)); [reflexivity|].
  now rewrite (proj2 (num_eq_false _ _) Hmin), Hno.
Qed.

(** The anchored case: the image is known and the target is neither the
    current level nor the minimum. *)
Lemma changeZoom_anchored (z : R) (cx cy : option R) (e : Engine) (info : ImageInfo) :
  enableZoom (props e) = true ->
  clamp MIN_ZOOM_LEVEL MAX_ZOOM_LEVEL z <> zoomLevel (state e) ->
  clamp MIN_ZOOM_LEVEL MAX_ZOOM_LEVEL z <> MIN_ZOOM_LEVEL ->
  getBestImageForType e MainSrc = Some info ->
  let next := clamp MIN_ZOOM_LEVEL MAX_ZOOM_LEVEL z in
  let limit := negb (bool_decide (currentAction (gesture e) = PINCH)) &&
               (zoomLevel (state e) >? next) in
  let m := getMaxOffsets e in
  changeZoom z cx cy e =
  setViewport next
    (if limit then clamp (minX m) (maxX m) (anchoredOffsetX e info cx next)
     else anchoredOffsetX e info cx next)
    (if limit then clamp (minY m) (maxY m) (anchoredOffsetY e info cy next)
     else anchoredOffsetY e info cy next) e.
Proof.
  intros Hen Hne Hmin Hinfo next limit m. unfold changeZoom. rewrite Hen. cbn [negb].
  rewrite (proj2 (num_eq_false _ _) Hne), (proj2 (num_eq_false _ _) Hmin), Hinfo.
  reflexivity.
Qed.

(** The arithmetic of the anchor: with the offset [anchoredOffset] computes,
    the image point under the pointer is the same at the new multiplier. *)
Lemma anchoredOffset_keeps_point (box img offset pointer cur next : R) :
  cur <> 0 -> next <> 0 ->
  imagePoint box img (anchoredOffset box img offset pointer cur next) pointer next =
  imagePoint box img offset pointer cur.
Proof. intros Hc Hn. unfold imagePoint, anchoredOffset. field. auto. Qed.

(** A zoom about the centre of the viewport from a centred image leaves it
    centred. *)
Lemma anchoredOffset_centre (box img cur next : R) :
  cur <> 0 -> anchoredOffset box img 0 (box / 2) cur next = 0.
Proof. intros Hc. unfold anchoredOffset. field. auto. Qed.

(** The zoom level after [changeZoom] is the old one or the clamped target. *)
Lemma changeZoom_level (z : R) (cx cy : option R) (e : Engine) :
  zoomLevel (state (changeZoom z cx cy e)) = zoomLevel (state e) \/
  zoomLevel (state (changeZoom z cx cy e)) = clamp MIN_ZOOM_LEVEL MAX_ZOOM_LEVEL z.
Proof.
  unfold changeZoom.
  repeat match goal with
  | |- context [if ?c then _ else _] => destruct c
  | |- context [match ?c with Some _ => _ | None => _ end] => destruct c
  end; auto.
Qed.

(** [changeZoom] keeps the viewport invariant, and establishes it whenever
    it changes the level. *)
Lemma changeZoom_viewport_ok (z : R) (cx cy : option R) (e : Engine) :
  viewport_ok e -> viewport_ok (changeZoom z cx cy e).
Proof.
  intros Hok. unfold changeZoom.
  destruct (negb (enableZoom (props e))); [exact Hok|].
  destruct (_ =? zoomLevel (state e)); [exact Hok|].
  destruct (_ =? MIN_ZOOM_LEVEL) eqn:Hmin.
  - intros _. split; reflexivity.
  - apply num_eq_false in Hmin.
    destruct (getBestImageForType e MainSrc); [|exact Hok].
    intros H. exfalso. apply Hmin. exact H.
Qed.

Lemma changeZoom_zoom_in_range (z : R) (cx cy : option R) (e : Engine) :
  MIN_ZOOM_LEVEL <= MAX_ZOOM_LEVEL ->
  zoom_in_range e -> zoom_in_range (changeZoom z cx cy e).
Proof.
  intros HK He. unfold zoom_in_range.
  destruct (changeZoom_level z cx cy e) as [-> | ->]; [exact He|].
  now apply clamp_in_range.
Qed.

(** C1, as the code has it (numbers are reals, so "within tolerance" is
    equality).  Let [next] be the target clamped to
    [[MIN_ZOOM_LEVEL, MAX_ZOOM_LEVEL]].
    - Nothing changes when zoom is disabled, when [next] is the current
      level, or when [next] is above the minimum and no image size is
      known.
    - When [next] is the minimum (and not the current level) the offset
      becomes exactly [(0, 0)] and the level [next]; no anchor is involved.
    - Otherwise the level becomes [next], and the image point under the
      anchor (the given client position, or the centre of the viewport) is
      the same before and after, PROVIDED the offset is not limited: during
      a pinch, when zooming in, or when the anchored offset already lies in
      the pan range.
    - When zooming out outside a pinch, the anchored offset is clamped into
      the pan range of the level being left. *)
Theorem changeZoom_keeps_anchor_point (z : R) (cx cy : option R) (e : Engine) :
  let next := clamp MIN_ZOOM_LEVEL MAX_ZOOM_LEVEL z in
  let e' := changeZoom z cx cy e in
  (enableZoom (props e) = false \/ next = zoomLevel (state e) \/
   (next <> MIN_ZOOM_LEVEL /\ getBestImageForType e MainSrc = None) -> e' = e) /\
  (enableZoom (props e) = true -> next <> zoomLevel (state e) -> next = MIN_ZOOM_LEVEL ->
     zoomLevel (state e') = MIN_ZOOM_LEVEL /\
     offsetX (state e') = 0 /\ offsetY (state e') = 0) /\
  (forall info,
     enableZoom (props e) = true -> next <> zoomLevel (state e) ->
     next <> MIN_ZOOM_LEVEL -> getBestImageForType e MainSrc = Some info ->
     zoomLevel (state e') = next /\
     (currentAction (gesture e) = PINCH \/ zoomLevel (state e) <= next \/
      inPanRange (getMaxOffsets e) (anchoredOffsetX e info cx next)
                 (anchoredOffsetY e info cy next) ->
      imagePointX e' info (anchorX e cx) = imagePointX e info (anchorX e cx) /\
      imagePointY e' info (anchorY e cy) = imagePointY e info (anchorY e cy)) /\
     (currentAction (gesture e) <> PINCH -> next < zoomLevel (state e) ->
      offsetX (state e') =
        clamp (minX (getMaxOffsets e)) (maxX (getMaxOffsets e))
              (anchoredOffsetX e info cx next) /\
      offsetY (state e') =
        clamp (minY (getMaxOffsets e)) (maxY (getMaxOffsets e))
              (anchoredOffsetY e info cy next))).
Proof.
  intros next e'. split; [|split].
  - intros [H|[H|[H1 H2]]]; subst e'.
    + now apply changeZoom_disabled.
    + now apply changeZoom_same.
    + now apply changeZoom_no_image.
  - intros Hen Hne Hmin. subst e'. rewrite changeZoom_reset by assumption.
    repeat split.
  - intros info Hen Hne Hmin Hinfo. subst e'.
    rewrite (changeZoom_anchored z cx cy e info) by assumption. fold next.
    split; [reflexivity|]. split.
    + intros Hfree.
      assert (Hoff :
        (if negb (bool_decide (currentAction (gesture e) = PINCH)) &&
            (zoomLevel (state e) >? next)
         then clamp (minX (getMaxOffsets e)) (maxX (getMaxOffsets e))
                    (anchoredOffsetX e info cx next)
         else anchoredOffsetX e info cx next) = anchoredOffsetX e info cx next /\
        (if negb (bool_decide (currentAction (gesture e) = PINCH)) &&
            (zoomLevel (state e) >? next)
         then clamp (minY (getMaxOffsets e)) (maxY (getMaxOffsets e))
                    (anchoredOffsetY e info cy next)
         else anchoredOffsetY e info cy next) = anchoredOffsetY e info cy next).
      { destruct Hfree as [Hp|[Hin|(Hx & Hy)]].
        - rewrite (bool_decide_eq_true_2 _ Hp). split; reflexivity.
        - rewrite (proj2 (num_lt_false _ _) Hin), andb_false_r. split; reflexivity.
        - destruct (_ && _); [|split; reflexivity].
          split; apply clamp_id; assumption. }
      destruct Hoff as [-> ->].
      pose proof (getZoomMultiplier_pos (zoomLevel (state e))).
      pose proof (getZoomMultiplier_pos next).
      unfold imagePointX, imagePointY, anchoredOffsetX, anchoredOffsetY.
      fields. split; apply anchoredOffset_keeps_point; lra.
    + intros Hnp Hout.
      rewrite (bool_decide_eq_false_2 _ Hnp), (proj2 (num_lt_true _ _) Hout).
      cbn [negb andb]. split; reflexivity.
Qed.

End Zoom.

Lemma getBestImageForType_loaded (e : Engine) (t : SrcName) (s : string) (c : CacheEntry) :
  propSrc (props e) t = Some s -> truthy (Some s) = true ->
  imageCache e !! s = Some c -> loaded c = true ->
  exists info, getBestImageForType e t = Some info /\
               i_width info = c_width c /\ i_height info = c_height c.
Proof.
  intros Hs Ht Hc Hl. unfold getBestImageForType, isImageLoaded, cacheEntryOf.
  rewrite Hs, Ht, Hc, Hl. cbn [andb]. eexists. split; [reflexivity|]. split; reflexivity.
Qed.

Lemma getBestImageForType_unloaded (e : Engine) (t : SrcName) :
  imageCache e = ∅ -> getBestImageForType e t = None.
Proof.
  intros Hc. unfold getBestImageForType, isImageLoaded, cacheEntryOf. rewrite Hc.
  destruct (propSrc (props e) t), (propThumbnail (props e) t);
    rewrite ?lookup_empty, ?andb_false_r; reflexivity.
Qed.

Section ZoomExamples.
#[local] Existing Instance sampleConstants.

Lemma sample_multiplier_1 : getZoomMultiplier 1 = 1.007.
Proof. unfold getZoomMultiplier. cbn [ZOOM_RATIO sampleConstants]. apply Rpower_1. lra. Qed.

Lemma sample_multiplier_2 : getZoomMultiplier 2 = 1.007 * 1.007.
Proof.
  unfold getZoomMultiplier. cbn [ZOOM_RATIO sampleConstants].
  replace 2 with (INR 2) by (cbn; lra). rewrite Rpower_pow by lra. cbn. lra.
Qed.

(** C1 as stated fails.  At zoom level 2, with the 1000 x 1000 image in the
    1000 x 1000 viewport panned by 7 pixels, zooming out to level 1 (in
    range and above the minimum) about the left edge of the viewport limits
    the offset to the pan range, and the image point under the anchor
    moves. *)
Lemma changeZoom_limit_moves_anchor :
  exists info,
    getBestImageForType zoomedPanned MainSrc = Some info /\
    MIN_ZOOM_LEVEL < 1 <= MAX_ZOOM_LEVEL /\
    zoomLevel (state (changeZoom 1 (Some 0) (Some 500) zoomedPanned)) = 1 /\
    imagePointX (changeZoom 1 (Some 0) (Some 500) zoomedPanned) info
                (anchorX zoomedPanned (Some 0)) <>
    imagePointX zoomedPanned info (anchorX zoomedPanned (Some 0)).
Proof.
  destruct (getBestImageForType_loaded zoomedPanned MainSrc "b.jpg"
              {| loaded := true; c_width := 1000; c_height := 1000 |})
    as (info & Hinfo & Hw & Hh); try reflexivity.
  cbn [c_width c_height] in Hw, Hh.
  exists info. split; [exact Hinfo|].
  cbn [MIN_ZOOM_LEVEL MAX_ZOOM_LEVEL sampleConstants]. split; [lra|].
  assert (Hc : clamp MIN_ZOOM_LEVEL MAX_ZOOM_LEVEL 1 = 1)
    by (apply clamp_id; cbn [MIN_ZOOM_LEVEL MAX_ZOOM_LEVEL sampleConstants]; lra).
  assert (Hz : zoomLevel (state zoomedPanned) = 2) by reflexivity.
  assert (Hox : offsetX (state zoomedPanned) = 7) by reflexivity.
  assert (Hbw : r_width (boxRect (env zoomedPanned)) = 1000) by reflexivity.
  assert (Hbl : r_left (boxRect (env zoomedPanned)) = 0) by reflexivity.
  assert (Hact : currentAction (gesture zoomedPanned) = NONE) by reflexivity.
  assert (Hen : enableZoom (props zoomedPanned) = true) by reflexivity.
  pose proof (getMaxOffsets_formula zoomedPanned) as Hf. rewrite Hinfo in Hf.
  cbn zeta in Hf. destruct Hf as (HmaxX & _ & _ & _ & HminX & _).
  unfold getLightboxRect in HmaxX.
  rewrite Hz, Hbw, Hw, sample_multiplier_2 in HmaxX. specialize (HmaxX ltac:(lra)).
  generalize dependent zoomedPanned. intros e Hinfo Hz Hox Hbw Hbl Hact Hen HmaxX HminX.
  rewrite (changeZoom_anchored 1 (Some 0) (Some 500) e info);
    try assumption;
    try (rewrite Hc, ?Hz; cbn [MIN_ZOOM_LEVEL sampleConstants]; lra).
  rewrite Hc, Hact, Hz. enum_decide. cbn [negb andb].
  rewrite (proj2 (num_lt_true 1 2)) by lra.
  split; [reflexivity|].
  unfold imagePointX, anchoredOffsetX, anchorX, anchoredOffset, imagePoint, clamp,
    getLightboxRect.
  fields. rewrite Hz, Hox, Hbw, Hbl, Hw, sample_multiplier_1, sample_multiplier_2.
  rewrite (Rmin_left (maxX (getMaxOffsets e))) by (rewrite HmaxX; lra).
  rewrite (Rmax_right (minX (getMaxOffsets e))) by (rewrite HminX, HmaxX; lra).
  rewrite HmaxX. lra.
Qed.

End ZoomExamples.

(** ** Mounting *)

Lemma setInflight_same (e : Engine) : setInflight (inflight (env e)) e = e.
Proof. destruct e as [? ? ? ? ? ? ? ? ? []]. reflexivity. Qed.

Lemma loadOne_fresh (p : Props) (t : SrcName) (e : Engine) :
  imageCache e = ∅ -> loadErrorStatus (state e) = ∅ ->
  loadOne p t e = setInflight (inflight (env e) ++ loadsFor p t) e.
Proof.
  intros Hc Hs. unfold loadOne, loadsFor, loadImage, isImageLoaded, cacheEntryOf.
  rewrite Hs, lookup_empty. cbn [default]. rewrite andb_false_r.
  destruct (propSrc p t) as [s|].
  - rewrite Hc, lookup_empty, andb_false_r. cbn [negb]. rewrite andb_true_r.
    destruct (truthy (Some s)); [reflexivity|].
    now rewrite app_nil_r, setInflight_same.
  - now rewrite app_nil_r, setInflight_same.
Qed.

Lemma loadAllImages_fresh (p : Props) (e : Engine) :
  imageCache e = ∅ -> loadErrorStatus (state e) = ∅ ->
  loadAllImages p e = setInflight (inflight (env e) ++ initialLoads p) e.
Proof.
  unfold loadAllImages, initialLoads. generalize getSrcTypes. intros l. revert e.
  induction l as [|t l IH]; intros e Hc Hs; cbn [fold_left flat_map].
  - now rewrite app_nil_r, setInflight_same.
  - rewrite loadOne_fresh by assumption. rewrite IH by assumption.
    fields. now rewrite app_assoc.
Qed.

Section Mount.
Context {K : Constants}.

Lemma componentDidMount_constructor (p : Props) (box : Rect) :
  componentDidMount (constructor p box) = mounted p box.
Proof.
  unfold componentDidMount, mounted.
  assert (H : (if negb (animationDisabled (props (constructor p box)))
               then setIsClosing false (constructor p box) else constructor p box) =
              setIsClosing false (constructor p box)).
  { unfold constructor. cbn [props]. destruct (animationDisabled p); reflexivity. }
  rewrite H. rewrite loadAllImages_fresh by reflexivity. reflexivity.
Qed.

End Mount.

Section GestureExamples.
#[local] Existing Instance sampleConstants.

(** C7 as stated fails.  With zoom disabled, two fingers put down on the
    image of the freshly mounted component leave two active pointers and
    no gesture: Pinch is not entered. *)
Lemma pinch_not_entered_without_zoom :
  exists e',
    dispatch (TouchStart [(0%Z, 100, 100); (1%Z, 200, 100)] true)
             (componentDidMount (constructor noZoomProps sampleBox)) = Some e' /\
    length (pointerList (gesture e')) = 2%nat /\
    currentAction (gesture e') = NONE.
Proof.
  rewrite componentDidMount_constructor.
  set (e0 := mounted noZoomProps sampleBox).
  unfold dispatch. change (didUnmount (flags e0)) with false. cbv iota.
  unfold handleTouchStart, shouldHandleEvent.
  change (eventsSource (gesture e0)) with ANY. enum_decide.
  cbn [andb fold_left]. unfold multiPointerStart.
  set (e1 := addPointer _ (addPointer _ _)).
  change (handleEnd false e1) with e1.
  rewrite (startForPointers_no_zoom _ e1); [|reflexivity|left; reflexivity].
  eexists. split; [reflexivity|]. split; reflexivity.
Qed.

End GestureExamples.

(** ** Pinch *)

Section Pinch.
Context {K : Constants}.

(** [changeZoom] changes nothing, or only the viewport. *)
Lemma changeZoom_shape (z : R) (cx cy : option R) (e : Engine) :
  changeZoom z cx cy e = e \/
  exists z' ox oy, changeZoom z cx cy e = setViewport z' ox oy e.
Proof.
  unfold changeZoom.
  destruct (negb (enableZoom (props e))); [now left|].
  destruct (_ =? zoomLevel (state e)); [now left|].
  destruct (_ =? MIN_ZOOM_LEVEL); [right; eauto|].
  destruct (getBestImageForType e MainSrc); [right; eauto|now left].
Qed.

Lemma changeZoom_frame (z : R) (cx cy : option R) (e : Engine) :
  props (changeZoom z cx cy e) = props e /\
  gesture (changeZoom z cx cy e) = gesture e /\
  moveVars (changeZoom z cx cy e) = moveVars e /\
  swipeVars (changeZoom z cx cy e) = swipeVars e /\
  pinchVars (changeZoom z cx cy e) = pinchVars e /\
  timerVars (changeZoom z cx cy e) = timerVars e /\
  flags (changeZoom z cx cy e) = flags e /\
  imageCache (changeZoom z cx cy e) = imageCache e /\
  env (changeZoom z cx cy e) = env e /\
  shouldAnimate (state (changeZoom z cx cy e)) = shouldAnimate (state e) /\
  isClosing (state (changeZoom z cx cy e)) = isClosing (state e) /\
  loadErrorStatus (state (changeZoom z cx cy e)) = loadErrorStatus (state e).
Proof.
  destruct (changeZoom_shape z cx cy e) as [-> | (z' & ox & oy & ->)]; repeat split.
Qed.

Lemma startForPointers_pinch (onZero : Engine -> Engine) (e : Engine) (a b : ParsedEvent) :
  enableZoom (props e) = true -> pointerList (gesture e) = [a; b] ->
  startForPointers onZero e =
  Some (setPinchVars [pinchPoint a; pinchPoint b] (distance a b)
          (setCurrentAction PINCH (emit PreventDefault e))).
Proof.
  intros Hen Hl. unfold startForPointers, handlePinchStart. rewrite Hl.
  change (props (emit PreventDefault e)) with (props e). rewrite Hen. reflexivity.
Qed.

(** One pinch step, for two captured samples. *)
Lemma handlePinch_step (pts : list ParsedEvent) (e : Engine) (a b : ParsedEvent) :
  pinchTouchList (pinchVars e) = [a; b] ->
  let a' := rematch pts a in
  let b' := rematch pts b in
  handlePinch pts e =
  Some (changeZoom (zoomLevel (state e) + distance a' b' - pinchDistance (pinchVars e))
                   (Some (pinchCenterX a' b')) (Some (pinchCenterY a' b'))
                   (setPinchVars [a'; b'] (distance a' b') e)).
Proof. intros Hl a' b'. unfold handlePinch. rewrite Hl. reflexivity. Qed.

Lemma handlePinch_total (pts : list ParsedEvent) (e : Engine) :
  length (pinchTouchList (pinchVars e)) = 2%nat -> is_Some (handlePinch pts e).
Proof.
  intros Hl. destruct (pinchTouchList (pinchVars e)) as [|a [|b [|c l]]] eqn:Hp;
    try discriminate Hl.
  rewrite (handlePinch_step pts e a b Hp). eauto.
Qed.

(** The zoom arithmetic of a step: how the level moves with the sign of
    the distance delta [d], when zoom is enabled and an image is known. *)
Lemma changeZoom_monotone (d : R) (cx cy : option R) (e : Engine) (info : ImageInfo) :
  MIN_ZOOM_LEVEL <= MAX_ZOOM_LEVEL -> zoom_in_range e ->
  enableZoom (props e) = true -> getBestImageForType e MainSrc = Some info ->
  let z' := zoomLevel (state (changeZoom (zoomLevel (state e) + d) cx cy e)) in
  (0 < d -> zoomLevel (state e) < z' \/
            z' = zoomLevel (state e) /\ zoomLevel (state e) = MAX_ZOOM_LEVEL) /\
  (d < 0 -> z' < zoomLevel (state e) \/
            z' = zoomLevel (state e) /\ zoomLevel (state e) = MIN_ZOOM_LEVEL) /\
  (d = 0 -> z' = zoomLevel (state e)).
Proof.
  intros HK [Hlo Hhi] Hen Hinfo z'.
  set (z := zoomLevel (state e)) in *.
  set (next := clamp MIN_ZOOM_LEVEL MAX_ZOOM_LEVEL (z + d)).
  assert (Hnext : (0 < d -> z < MAX_ZOOM_LEVEL -> z < next) /\
                  (0 < d -> z = MAX_ZOOM_LEVEL -> next = z) /\
                  (d < 0 -> MIN_ZOOM_LEVEL < z -> next < z) /\
                  (d < 0 -> z = MIN_ZOOM_LEVEL -> next = z) /\
                  (d = 0 -> next = z) /\ MIN_ZOOM_LEVEL <= next).
  { subst next. unfold clamp, Rmin.
    destruct (Rle_dec MAX_ZOOM_LEVEL (z + d)); unfold Rmax; destruct (Rle_dec _ _);
      repeat split; intros; lra. }
  destruct Hnext as (H1 & H2 & H3 & H4 & H5 & H6).
  assert (Hz' : next <> z -> z' = next).
  { intros Hne. subst z'. fold z. fold next.
    destruct (Req_dec_T next MIN_ZOOM_LEVEL) as [Hmin|Hmin].
    - rewrite changeZoom_reset by assumption. now rewrite Hmin.
    - now rewrite (changeZoom_anchored (z + d) cx cy e info) by assumption. }
  assert (Hsame : next = z -> z' = z).
  { intros Heq. subst z'. now rewrite changeZoom_same by assumption. }
  split; [|split].
  - intros Hd. destruct (Req_dec_T z MAX_ZOOM_LEVEL) as [Hmax|Hmax].
    + right. split; [|exact Hmax]. apply Hsame. now apply H2.
    + left. assert (z < next) by (apply H1; lra). rewrite Hz'; lra.
  - intros Hd. destruct (Req_dec_T z MIN_ZOOM_LEVEL) as [Hmin|Hmin].
    + right. split; [|exact Hmin]. apply Hsame. now apply H4.
    + left. assert (next < z) by (apply H3; lra). rewrite Hz'; lra.
  - intros Hd. apply Hsame. now apply H5.
Qed.

(** C6, as the code has it.  A pinch step on two captured samples re-matches
    them to the incoming samples by identity (a sample that is not matched
    keeps its position), feeds [zoomLevel + (newDistance - storedDistance)]
    to [changeZoom] anchored at the midpoint of the two samples, and stores
    [newDistance].  With zoom enabled, an image size known and the level
    within its bounds, a larger distance strictly raises the level or holds
    it at [MAX_ZOOM_LEVEL], a smaller one strictly lowers it or holds it at
    [MIN_ZOOM_LEVEL], and an equal one leaves it.  With zoom disabled, or
    with no image size known and a target above the minimum, the level does
    not move. *)
Theorem handlePinch_zoom (pts : list ParsedEvent) (e : Engine) (a b : ParsedEvent) :
  pinchTouchList (pinchVars e) = [a; b] ->
  let a' := rematch pts a in
  let b' := rematch pts b in
  let newDistance := distance a' b' in
  let target := zoomLevel (state e) + (newDistance - pinchDistance (pinchVars e)) in
  exists e',
    handlePinch pts e = Some e' /\
    e' = changeZoom target
           (Some ((p_x a' + p_x b') / 2)) (Some ((p_y a' + p_y b') / 2))
           (setPinchVars [a'; b'] newDistance e) /\
    pinchDistance (pinchVars e') = newDistance /\
    pinchTouchList (pinchVars e') = [a'; b'] /\
    (MIN_ZOOM_LEVEL <= MAX_ZOOM_LEVEL -> zoom_in_range e ->
     enableZoom (props e) = true -> getBestImageForType e MainSrc <> None ->
     (pinchDistance (pinchVars e) < newDistance ->
        zoomLevel (state e) < zoomLevel (state e') \/
        zoomLevel (state e') = zoomLevel (state e) /\
        zoomLevel (state e) = MAX_ZOOM_LEVEL) /\
     (newDistance < pinchDistance (pinchVars e) ->
        zoomLevel (state e') < zoomLevel (state e) \/
        zoomLevel (state e') = zoomLevel (state e) /\
        zoomLevel (state e) = MIN_ZOOM_LEVEL) /\
     (newDistance = pinchDistance (pinchVars e) ->
        zoomLevel (state e') = zoomLevel (state e))) /\
    (enableZoom (props e) = false \/
     getBestImageForType e MainSrc = None /\
     clamp MIN_ZOOM_LEVEL MAX_ZOOM_LEVEL target <> MIN_ZOOM_LEVEL ->
     zoomLevel (state e') = zoomLevel (state e)).
Proof.
  intros Hl a' b' newDistance target.
  set (e1 := setPinchVars [a'; b'] newDistance e).
  assert (Hv : sameView e e1) by (repeat split).
  eexists. split; [apply (handlePinch_step pts e a b Hl)|]. fold a' b' newDistance e1.
  replace (zoomLevel (state e) + newDistance - pinchDistance (pinchVars e))
    with target by (subst target; lra).
  replace (pinchCenterX a' b') with ((p_x a' + p_x b') / 2)
    by (unfold pinchCenterX; lra).
  replace (pinchCenterY a' b') with ((p_y a' + p_y b') / 2)
    by (unfold pinchCenterY; lra).
  split; [reflexivity|].
  destruct (changeZoom_frame target (Some ((p_x a' + p_x b') / 2))
              (Some ((p_y a' + p_y b') / 2)) e1) as (_ & _ & _ & _ & Hpv & _).
  rewrite Hpv. split; [reflexivity|]. split; [reflexivity|]. split.
  - intros HK Hr Hen Himg.
    destruct (getBestImageForType e MainSrc) as [info|] eqn:Hinfo; [|congruence].
    rewrite <- (getBestImageForType_ext e e1) in Hinfo by exact Hv.
    pose proof (changeZoom_monotone (newDistance - pinchDistance (pinchVars e))
                  (Some ((p_x a' + p_x b') / 2)) (Some ((p_y a' + p_y b') / 2))
                  e1 info HK Hr Hen Hinfo) as (Hup & Hdown & Heq).
    change (zoomLevel (state e1)) with (zoomLevel (state e)) in Hup, Hdown, Heq.
    fold target in Hup, Hdown, Heq.
    split; [|split]; intros Hd; [apply Hup|apply Hdown|apply Heq]; lra.
  - intros [Hen|[Himg Hmin]].
    + now rewrite changeZoom_disabled.
    + rewrite changeZoom_no_image; [reflexivity|exact Hmin|].
      now rewrite (getBestImageForType_ext e e1).
Qed.

End Pinch.

Lemma distance_horizontal (a b : ParsedEvent) :
  p_y a = p_y b -> distance a b = Rabs (p_x a - p_x b).
Proof.
  intros Hy. unfold distance. rewrite Hy.
  replace ((p_x a - p_x b) ^ 2 + (p_y b - p_y b) ^ 2) with (Rsqr (p_x a - p_x b))
    by (unfold Rsqr; ring).
  apply sqrt_Rsqr_abs.
Qed.

Section PinchExamples.
#[local] Existing Instance sampleConstants.

Lemma handlePinch_zoom_witness :
  exists e',
    handlePinch [parseTouchPointer 1 300 100] pinchingEngine = Some e' /\
    pinchTouchList (pinchVars e') =
      [rematch [parseTouchPointer 1 300 100] pinchA;
       rematch [parseTouchPointer 1 300 100] pinchB].
Proof.
  destruct (handlePinch_zoom [parseTouchPointer 1 300 100] pinchingEngine pinchA pinchB
              eq_refl) as (e' & H1 & _ & _ & H4 & _).
  exists e'. split; [exact H1|exact H4].
Defined.

(** C6 as stated fails.  On the freshly mounted component no image size is
    known yet.  Two fingers 100 pixels apart start a pinch; moving one of
    them to 200 pixels from the other doubles the stored distance, and the
    zoom level stays at the minimum, below the maximum. *)
Lemma pinch_without_image_keeps_level :
  exists e1 e2,
    dispatch (TouchStart [(0%Z, 100, 100); (1%Z, 200, 100)] true)
             (componentDidMount (constructor sampleProps sampleBox)) = Some e1 /\
    dispatch (TouchMove [(1%Z, 300, 100)]) e1 = Some e2 /\
    currentAction (gesture e1) = PINCH /\
    pinchDistance (pinchVars e1) = 100 /\
    pinchDistance (pinchVars e2) = 200 /\
    zoomLevel (state e1) = MIN_ZOOM_LEVEL /\
    zoomLevel (state e2) = MIN_ZOOM_LEVEL /\
    MIN_ZOOM_LEVEL < MAX_ZOOM_LEVEL.
Proof.
  rewrite componentDidMount_constructor.
  set (e0 := mounted sampleProps sampleBox).
  unfold dispatch at 1. change (didUnmount (flags e0)) with false. cbv iota.
  unfold handleTouchStart, shouldHandleEvent.
  change (eventsSource (gesture e0)) with ANY. enum_decide.
  cbn [andb fold_left]. unfold multiPointerStart.
  set (e1 := addPointer _ (addPointer _ _)).
  change (handleEnd false e1) with e1.
  rewrite (startForPointers_pinch _ e1 (parseTouch (0%Z, 100, 100))
             (parseTouch (1%Z, 200, 100))) by reflexivity.
  set (e2 := setPinchVars _ _ _).
  exists e2. eexists. split; [reflexivity|].
  assert (Hd1 : pinchDistance (pinchVars e2) = 100).
  { subst e2. fields. rewrite distance_horizontal by reflexivity.
    unfold parseTouch. fields. rewrite Rabs_left; lra. }
  unfold dispatch. change (didUnmount (flags e2)) with false. cbv iota.
  unfold handleTouchMove, shouldHandleEvent.
  change (eventsSource (gesture e2)) with TOUCH. enum_decide.
  unfold multiPointerMove. change (currentAction (gesture e2)) with PINCH. cbv iota.
  rewrite (handlePinch_step _ (emit PreventDefault e2)
             (pinchPoint (parseTouch (0%Z, 100, 100)))
             (pinchPoint (parseTouch (1%Z, 200, 100)))) by reflexivity.
  cbv zeta.
  set (a' := rematch _ (pinchPoint (parseTouch (0%Z, 100, 100)))).
  set (b' := rematch _ (pinchPoint (parseTouch (1%Z, 200, 100)))).
  assert (Hd2 : distance a' b' = 200).
  { rewrite distance_horizontal by reflexivity.
    subst a' b'. unfold rematch, parseTouch. cbn [map List.find]. fields.
    cbn [pinchPoint p_id parseTouchPointer]. enum_decide.
    cbn [pinchPoint p_x parseTouchPointer]. rewrite Rabs_left; lra. }
  rewrite changeZoom_no_image.
  - split; [reflexivity|]. split; [reflexivity|]. split; [exact Hd1|].
    split; [exact Hd2|]. split; [reflexivity|]. split; [reflexivity|].
    cbn [MIN_ZOOM_LEVEL MAX_ZOOM_LEVEL sampleConstants]. lra.
  - fields. rewrite Hd2, Hd1.
    change (zoomLevel (state e2)) with 0.
    cbn [MIN_ZOOM_LEVEL MAX_ZOOM_LEVEL sampleConstants].
    rewrite clamp_id; lra.
  - now apply getBestImageForType_unloaded.
Qed.

End PinchExamples.

(** ** Invariants of the reachable states *)

Section Invariants.
Context {K : Constants}.

Lemma sameCore_refl (e : Engine) : sameCore e e.
Proof. repeat split. Qed.

Lemma sameCore_trans (e1 e2 e3 : Engine) :
  sameCore e1 e2 -> sameCore e2 e3 -> sameCore e1 e3.
Proof.
  unfold sameCore. intros (?&?&?&?&?&?&?) (?&?&?&?&?&?&?). repeat split; congruence.
Qed.

Lemma Inv_sameCore (e e' : Engine) : sameCore e e' -> Inv e -> Inv e'.
Proof.
  intros (Hg & Hp & Hz & Ht & Hpe & Hn & Hd) (Hr & Hzr & Hpi & Htm).
  unfold Inv, registry_ok, zoom_in_range, pinch_ok, timers_ok in *.
  rewrite Hg, Hp, Hz, Ht, Hpe, Hn, Hd. auto.
Qed.

Lemma sameCore_changeZoom_but_zoom (z : R) (cx cy : option R) (e : Engine) :
  gesture (changeZoom z cx cy e) = gesture e /\
  pinchVars (changeZoom z cx cy e) = pinchVars e /\
  timerVars (changeZoom z cx cy e) = timerVars e /\
  env (changeZoom z cx cy e) = env e /\
  flags (changeZoom z cx cy e) = flags e.
Proof.
  destruct (changeZoom_frame z cx cy e) as (_&?&_&_&?&?&?&_&?&_). auto.
Qed.

Lemma Inv_changeZoom (z : R) (cx cy : option R) (e : Engine) :
  Inv e -> Inv (changeZoom z cx cy e).
Proof.
  intros (Hr & Hzr & Hpi & Htm).
  destruct (sameCore_changeZoom_but_zoom z cx cy e) as (Hg & Hp & Ht & He & Hf).
  split; [|split; [|split]].
  - unfold registry_ok in *. now rewrite Hg.
  - intros HK. apply changeZoom_zoom_in_range; auto.
  - unfold pinch_ok in *. now rewrite Hg, Hp.
  - unfold timers_ok in *. now rewrite Ht, He, Hf.
Qed.

Lemma timers_ok_setTimeout (cb : TimerCallback) (t : R) (e : Engine) :
  didUnmount (flags e) = false -> timers_ok e -> timers_ok (snd (setTimeout cb t e)).
Proof.
  intros Hd [Hfresh Heq]. unfold timers_ok in *. rewrite Hd in Heq.
  cbn [setTimeout browserSetTimeout snd]. fields. rewrite Hd. split.
  - apply Forall_app. split.
    + eapply Forall_impl; [exact Hfresh|]. intros id Hid. cbn beta in *. lia.
    + repeat constructor. lia.
  - rewrite map_app. cbn [map t_id]. now rewrite Heq.
Qed.

Lemma filter_map_t_id (id : positive) (l : list Timer) :
  map t_id (List.filter (fun t => negb (Pos.eqb (t_id t) id)) l) =
  List.filter (fun tid => negb (Pos.eqb tid id)) (map t_id l).
Proof.
  induction l as [|t l IH]; [reflexivity|]. cbn [List.filter map].
  destruct (negb (Pos.eqb (t_id t) id)); cbn [map]; now rewrite IH.
Qed.

Lemma Forall_filter_keep {A : Type} (P : A -> Prop) (f : A -> bool) (l : list A) :
  Forall P l -> Forall P (List.filter f l).
Proof.
  induction 1 as [|x l Hx _ IH]; cbn [List.filter]; [constructor|].
  destruct (f x); [constructor; assumption|assumption].
Qed.

Lemma timers_ok_clearTimeout (id : option positive) (e : Engine) :
  timers_ok e -> timers_ok (clearTimeout id e).
Proof.
  intros [Hfresh Heq]. destruct id as [i|]; [|split; assumption].
  unfold timers_ok, clearTimeout, browserClearTimeout in *. fields. split.
  - now apply Forall_filter_keep.
  - destruct (didUnmount (flags e)).
    + now rewrite Heq.
    + now rewrite filter_map_t_id, Heq.
Qed.

Lemma timerStep_refl (e : Engine) : timerStep e e.
Proof. unfold timerStep. tauto. Qed.

Lemma timerStep_trans (e1 e2 e3 : Engine) :
  timerStep e1 e2 -> timerStep e2 e3 -> timerStep e1 e3.
Proof.
  unfold timerStep. intros (?&?&?&Hd1&Ht1) (?&?&?&Hd2&Ht2).
  do 4 (split; [congruence|]). intros Hd Ht. apply Ht2; [congruence|auto].
Qed.

Lemma timerStep_sameCore (e e' : Engine) : sameCore e e' -> timerStep e e'.
Proof.
  intros (Hg & Hp & Hz & Ht & Hpe & Hn & Hd). do 4 (split; [assumption|]).
  unfold timers_ok. rewrite Ht, Hpe, Hn, Hd. tauto.
Qed.

Lemma timerStep_setTimeout (cb : TimerCallback) (t : R) (e : Engine) :
  timerStep e (snd (setTimeout cb t e)).
Proof. do 4 (split; [reflexivity|]). apply timers_ok_setTimeout. Qed.

Lemma timerStep_clearTimeout (id : option positive) (e : Engine) :
  timerStep e (clearTimeout id e).
Proof.
  split; [apply gesture_clearTimeout|].
  do 3 (split; [destruct id; reflexivity|]).
  intros _. apply timers_ok_clearTimeout.
Qed.

Lemma Inv_timerStep (e e' : Engine) :
  timerStep e e' -> didUnmount (flags e) = false -> Inv e ->
  Inv e' /\ didUnmount (flags e') = false.
Proof.
  intros (Hg & Hp & Hz & Hd & Ht) Hm (Hr & Hzr & Hpi & Htm).
  split; [|congruence].
  unfold Inv, registry_ok, zoom_in_range, pinch_ok in *. rewrite Hg, Hp, Hz. auto.
Qed.

Lemma MInv_sameCore (e e' : Engine) : sameCore e e' -> MInv e -> MInv e'.
Proof.
  intros Hc [Hd Hi]. split; [|now apply (Inv_sameCore e)].
  destruct Hc as (_&_&_&_&_&_&Hd'). congruence.
Qed.

Lemma MInv_timerStep (e e' : Engine) : timerStep e e' -> MInv e -> MInv e'.
Proof.
  intros Hs [Hd Hi]. destruct (Inv_timerStep e e' Hs Hd Hi). split; assumption.
Qed.

Lemma MInv_changeZoom (z : R) (cx cy : option R) (e : Engine) :
  MInv e -> MInv (changeZoom z cx cy e).
Proof.
  intros [Hd Hi]. split; [|now apply Inv_changeZoom].
  destruct (sameCore_changeZoom_but_zoom z cx cy e) as (_&_&_&_&Hf). now rewrite Hf.
Qed.

Lemma MInv_sameButRegistry (e e' : Engine) :
  sameButRegistry e e' -> registry_ok e' -> MInv e -> MInv e'.
Proof.
  intros (Ha & Hp & Hz & Ht & Hpe & Hn & Hd) Hr' (Hm & Hr & Hzr & Hpi & Htm).
  split; [congruence|]. split; [exact Hr'|].
  unfold zoom_in_range, pinch_ok, timers_ok in *.
  rewrite Ha, Hp, Hz, Ht, Hpe, Hn, Hd. auto.
Qed.

(** Leaving a gesture, or entering one that is not a pinch. *)
Lemma MInv_setCurrentAction (a : Action) (e : Engine) :
  a <> PINCH -> MInv e -> MInv (setCurrentAction a e).
Proof.
  intros Ha (Hm & Hr & Hzr & Hpi & Htm).
  split; [exact Hm|]. split; [exact Hr|]. split; [exact Hzr|]. split; [|exact Htm].
  intros H. exfalso. apply Ha. exact H.
Qed.

Lemma MInv_requestMove (d : Direction) (e : Engine) : MInv e -> MInv (requestMove d e).
Proof.
  intros (Hm & Hr & Hzr & Hpi & Htm). unfold requestMove.
  set (animated := negb (animationDisabled (props e)) && _).
  set (e1 := if animated then snd (setTimeout _ _ e) else e).
  assert (H1 : timerStep e e1).
  { subst e1. destruct animated; [apply timerStep_setTimeout|apply timerStep_refl]. }
  destruct H1 as (Hg & Hp & _ & Hd & Ht). specialize (Ht Hm Htm).
  split; [destruct d; fields; congruence|].
  split; [|split; [|split]].
  - unfold registry_ok in *. destruct d; fields; now rewrite Hg.
  - intros HK. unfold zoom_in_range. destruct d; fields; lra.
  - unfold pinch_ok in *. destruct d; fields; now rewrite Hg, Hp.
  - unfold timers_ok in *. destruct d; fields; now rewrite Hd in Ht |- *.
Qed.

Lemma MInv_handleMoveEnd (e : Engine) : MInv e -> MInv (handleMoveEnd e).
Proof.
  intros H. unfold handleMoveEnd. fold (moveReset e).
  assert (H1 : MInv (moveReset e)).
  { apply (MInv_sameCore (setCurrentAction NONE e)); [repeat split|].
    now apply MInv_setCurrentAction. }
  destruct (negb _ || negb _); [|exact H1].
  eapply MInv_timerStep; [apply timerStep_setTimeout|].
  eapply MInv_sameCore; [|exact H1]. repeat split.
Qed.

Lemma MInv_handleSwipeEnd (event : bool) (e : Engine) :
  MInv e -> MInv (handleSwipeEnd event e).
Proof.
  intros H. unfold handleSwipeEnd. fold (swipeReset e).
  assert (H1 : MInv (swipeReset e)).
  { apply (MInv_sameCore (setCurrentAction NONE e)); [repeat split|].
    now apply MInv_setCurrentAction. }
  assert (H2 : MInv (emit PreventDefault (swipeReset e)))
    by (eapply MInv_sameCore; [|exact H1]; repeat split).
  repeat match goal with
  | |- context [if ?c then _ else _] => destruct c
  end; try exact H1; now apply MInv_requestMove.
Qed.

Lemma MInv_handlePinchEnd (e : Engine) : MInv e -> MInv (handlePinchEnd e).
Proof.
  intros (Hm & Hr & Hzr & Hpi & Htm). unfold handlePinchEnd.
  split; [exact Hm|]. split; [exact Hr|]. split; [exact Hzr|]. split; [|exact Htm].
  intros H. discriminate H.
Qed.

Lemma MInv_handleEnd (event : bool) (e : Engine) : MInv e -> MInv (handleEnd event e).
Proof.
  intros H. unfold handleEnd. destruct (currentAction (gesture e)).
  - exact H.
  - now apply MInv_handleMoveEnd.
  - now apply MInv_handleSwipeEnd.
  - now apply MInv_handlePinchEnd.
Qed.

Lemma timerStep_setPreventInnerClose (e : Engine) : timerStep e (setPreventInnerClose e).
Proof.
  unfold setPreventInnerClose.
  set (e1 := match preventInnerCloseTimeout (timerVars e) with
             | Some i => clearTimeout (Some i) e | None => e end).
  assert (H1 : timerStep e e1).
  { subst e1. destruct (preventInnerCloseTimeout (timerVars e));
      [apply timerStep_clearTimeout|apply timerStep_refl]. }
  eapply timerStep_trans; [exact H1|].
  eapply timerStep_trans; [apply (timerStep_sameCore e1 (setPreventInnerCloseFlag true e1));
                           repeat split|].
  eapply timerStep_trans; [apply (timerStep_setTimeout CbAllowInnerClose 100)|].
  apply timerStep_sameCore. repeat split.
Qed.

Lemma MInv_decideMoveOrSwipe (p : ParsedEvent) (e : Engine) :
  MInv e -> MInv (decideMoveOrSwipe p e).
Proof.
  intros H. unfold decideMoveOrSwipe, handleSwipeStart, handleMoveStart.
  destruct (_ <=? _).
  - apply (MInv_sameCore (setCurrentAction SWIPE e)); [repeat split|].
    now apply MInv_setCurrentAction.
  - destruct (negb (enableZoom (props e))); [exact H|].
    apply (MInv_sameCore (setCurrentAction MOVE e)); [repeat split|].
    now apply MInv_setCurrentAction.
Qed.

Lemma MInv_handlePinchStart (e e' : Engine) (a b : ParsedEvent) :
  MInv e -> handlePinchStart [a; b] e = Some e' -> MInv e'.
Proof.
  intros (Hm & Hr & Hzr & Hpi & Htm). unfold handlePinchStart.
  destruct (negb (enableZoom (props e))).
  - intros [= <-]. exact (conj Hm (conj Hr (conj Hzr (conj Hpi Htm)))).
  - cbn [map calculatePinchDistance mbind option_bind]. intros [= <-].
    split; [exact Hm|]. split; [exact Hr|]. split; [exact Hzr|]. split; [|exact Htm].
    intros _. reflexivity.
Qed.

Lemma MInv_startForPointers (onZero : Engine -> Engine) (e e' : Engine) :
  (pointerList (gesture e) = [] -> MInv (onZero e)) ->
  MInv e -> startForPointers onZero e = Some e' -> MInv e'.
Proof.
  intros Hzero H. unfold startForPointers.
  assert (H1 : MInv (emit PreventDefault e))
    by (eapply MInv_sameCore; [|exact H]; repeat split).
  destruct (pointerList (gesture e)) as [|a [|b [|c l]]] eqn:Hl.
  - intros [= <-]. now apply Hzero.
  - intros [= <-]. now apply MInv_decideMoveOrSwipe.
  - apply MInv_handlePinchStart. exact H1.
  - intros [= <-]. exact H.
Qed.

Lemma MInv_multiPointerStart (e e' : Engine) :
  MInv e -> multiPointerStart e = Some e' -> MInv e'.
Proof.
  intros H. unfold multiPointerStart.
  apply MInv_startForPointers; [intros _|]; now apply MInv_handleEnd.
Qed.

Lemma MInv_multiPointerEnd (e e' : Engine) :
  MInv e -> multiPointerEnd e = Some e' -> MInv e'.
Proof.
  intros H. unfold multiPointerEnd.
  set (e1 := if negb _ then _ else e).
  assert (H1 : MInv e1).
  { subst e1. destruct (negb _); [|exact H]. apply MInv_handleEnd.
    eapply MInv_timerStep; [apply timerStep_setPreventInnerClose|exact H]. }
  apply MInv_startForPointers; [|exact H1].
  intros Hl. destruct H1 as (Hm & Hr & Hzr & Hpi & Htm).
  split; [exact Hm|]. split; [|split; [exact Hzr|split; [exact Hpi|exact Htm]]].
  unfold registry_ok. fields. rewrite Hl. split; [constructor|reflexivity].
Qed.

Lemma MInv_multiPointerMove (pts : list ParsedEvent) (e e' : Engine) :
  MInv e -> multiPointerMove pts e = Some e' -> MInv e'.
Proof.
  intros H. unfold multiPointerMove.
  assert (H1 : MInv (emit PreventDefault e))
    by (eapply MInv_sameCore; [|exact H]; repeat split).
  destruct (currentAction (gesture e)) eqn:Ha.
  - now intros [= <-].
  - destruct (head pts) as [p|]; [|discriminate]. cbn [mbind option_bind].
    intros [= <-]. unfold handleMove.
    destruct (negb _ || negb _); [|exact H1].
    eapply MInv_sameCore; [|exact H1]. repeat split.
  - destruct (head pts) as [p|]; [|discriminate]. cbn [mbind option_bind].
    intros [= <-]. eapply MInv_sameCore; [|exact H1]. repeat split.
  - destruct H1 as (Hm & Hr & Hzr & Hpi & Htm).
    assert (Hlen : length (pinchTouchList (pinchVars (emit PreventDefault e))) = 2%nat)
      by (apply Hpi; exact Ha).
    destruct (pinchTouchList (pinchVars (emit PreventDefault e)))
      as [|a [|b [|c l]]] eqn:Hl; try discriminate Hlen.
    rewrite (handlePinch_step pts _ a b Hl). intros [= <-].
    apply MInv_changeZoom.
    split; [exact Hm|]. split; [exact Hr|]. split; [exact Hzr|]. split; [|exact Htm].
    intros _. reflexivity.
Qed.

(** Arbitration keeps the registry consistent, and an accepted sample comes
    from the source that is active afterwards. *)
Lemma shouldHandleEvent_registry (s : Source) (e : Engine) :
  s <> ANY -> registry_ok e ->
  registry_ok (snd (shouldHandleEvent s e)) /\
  sameButRegistry e (snd (shouldHandleEvent s e)) /\
  (fst (shouldHandleEvent s e) = true ->
   eventsSource (gesture (snd (shouldHandleEvent s e))) = s).
Proof.
  intros Hs [Hall Hany]. unfold shouldHandleEvent.
  destruct (bool_decide (eventsSource (gesture e) = s)) eqn:Hsame.
  { apply bool_decide_eq_true in Hsame. repeat split; auto. }
  destruct (bool_decide (eventsSource (gesture e) = ANY)) eqn:Hnone.
  { apply bool_decide_eq_true in Hnone. cbn [fst snd].
    split; [|repeat split]. unfold registry_ok. fields.
    rewrite (Hany Hnone). split; [constructor|reflexivity]. }
  destruct s; try congruence; cbn [fst snd].
  - repeat split; auto. intros H; discriminate H.
  - split; [|repeat split]. unfold registry_ok, filterPointersBySource. fields.
    split; [apply fromSource_Forall|intros H; discriminate H].
  - destruct (bool_decide (eventsSource (gesture e) = MOUSE)); cbn [fst snd].
    + split; [|repeat split]. unfold registry_ok, filterPointersBySource. fields.
      split; [apply fromSource_Forall|intros H; discriminate H].
    + repeat split; auto. intros H; discriminate H.
Qed.

Lemma MInv_shouldHandleEvent (s : Source) (e : Engine) :
  s <> ANY -> MInv e -> MInv (snd (shouldHandleEvent s e)).
Proof.
  intros Hs H. pose proof H as (_ & Hr & _).
  destruct (shouldHandleEvent_registry s e Hs Hr) as (Hr' & Hsame & _).
  now apply (MInv_sameButRegistry e).
Qed.

Lemma MInv_addPointer (p : ParsedEvent) (e : Engine) :
  p_source p = Some (eventsSource (gesture e)) -> eventsSource (gesture e) <> ANY ->
  MInv e -> MInv (addPointer p e).
Proof.
  intros Hp Hne H. pose proof H as (_ & (Hall & Hany) & _).
  apply (MInv_sameButRegistry e); [repeat split| |exact H].
  unfold registry_ok. fields. split.
  - apply Forall_app. split; [exact Hall|]. repeat constructor. exact Hp.
  - intros Hs. contradiction.
Qed.

Lemma MInv_removePointer (p : ParsedEvent) (e : Engine) :
  MInv e -> MInv (removePointer p e).
Proof.
  intros H. pose proof H as (_ & (Hall & Hany) & _).
  apply (MInv_sameButRegistry e); [repeat split| |exact H].
  unfold registry_ok. fields. split.
  - now apply Forall_filter_keep.
  - intros Hs. now rewrite (Hany Hs).
Qed.

Lemma MInv_handleMouseDown (x y : R) (onImage : bool) (e e' : Engine) :
  MInv e -> handleMouseDown x y onImage e = Some e' -> MInv e'.
Proof.
  intros H. unfold handleMouseDown.
  pose proof (MInv_shouldHandleEvent MOUSE e ltac:(discriminate) H) as H1.
  pose proof H as (_ & Hr & _).
  destruct (shouldHandleEvent_registry MOUSE e ltac:(discriminate) Hr) as (_ & _ & Hsrc).
  destruct (shouldHandleEvent MOUSE e) as [ok e1]. cbn [fst snd] in *.
  destruct ok; cbn [andb]; [|now intros [= <-]].
  destruct onImage; [|now intros [= <-]].
  apply MInv_multiPointerStart. apply MInv_addPointer; [|now rewrite Hsrc|exact H1].
  now rewrite Hsrc.
Qed.

Lemma MInv_handleMouseMove (x y : R) (e e' : Engine) :
  MInv e -> handleMouseMove x y e = Some e' -> MInv e'.
Proof.
  intros H. unfold handleMouseMove.
  pose proof (MInv_shouldHandleEvent MOUSE e ltac:(discriminate) H) as H1.
  destruct (shouldHandleEvent MOUSE e) as [ok e1]. cbn [fst snd] in *.
  destruct ok; [|now intros [= <-]]. now apply MInv_multiPointerMove.
Qed.

Lemma MInv_handleMouseUp (x y : R) (e e' : Engine) :
  MInv e -> handleMouseUp x y e = Some e' -> MInv e'.
Proof.
  intros H. unfold handleMouseUp.
  pose proof (MInv_shouldHandleEvent MOUSE e ltac:(discriminate) H) as H1.
  destruct (shouldHandleEvent MOUSE e) as [ok e1]. cbn [fst snd] in *.
  destruct ok; [|now intros [= <-]].
  apply MInv_multiPointerEnd. now apply MInv_removePointer.
Qed.

Lemma MInv_addTouches (ts : list Touch) (e : Engine) :
  eventsSource (gesture e) = TOUCH -> MInv e ->
  MInv (fold_left (fun e t => addPointer (parseTouch t) e) ts e).
Proof.
  revert e. induction ts as [|t ts IH]; intros e Hs H; [exact H|].
  cbn [fold_left]. apply IH; [exact Hs|].
  apply MInv_addPointer; [now rewrite Hs|now rewrite Hs|exact H].
Qed.

Lemma MInv_removeTouches (ts : list Touch) (e : Engine) :
  MInv e -> MInv (fold_left (fun e t => removePointer (parseTouch t) e) ts e).
Proof.
  revert e. induction ts as [|t ts IH]; intros e H; [exact H|].
  cbn [fold_left]. apply IH. now apply MInv_removePointer.
Qed.

Lemma MInv_handleTouchStart (ts : list Touch) (onImage : bool) (e e' : Engine) :
  MInv e -> handleTouchStart ts onImage e = Some e' -> MInv e'.
Proof.
  intros H. unfold handleTouchStart.
  pose proof (MInv_shouldHandleEvent TOUCH e ltac:(discriminate) H) as H1.
  pose proof H as (_ & Hr & _).
  destruct (shouldHandleEvent_registry TOUCH e ltac:(discriminate) Hr) as (_ & _ & Hsrc).
  destruct (shouldHandleEvent TOUCH e) as [ok e1]. cbn [fst snd] in *.
  destruct ok; cbn [andb]; [|now intros [= <-]].
  destruct onImage; [|now intros [= <-]].
  apply MInv_multiPointerStart. apply MInv_addTouches; auto.
Qed.

Lemma MInv_handleTouchMove (ts : list Touch) (e e' : Engine) :
  MInv e -> handleTouchMove ts e = Some e' -> MInv e'.
Proof.
  intros H. unfold handleTouchMove.
  pose proof (MInv_shouldHandleEvent TOUCH e ltac:(discriminate) H) as H1.
  destruct (shouldHandleEvent TOUCH e) as [ok e1]. cbn [fst snd] in *.
  destruct ok; [|now intros [= <-]]. now apply MInv_multiPointerMove.
Qed.

Lemma MInv_handleTouchEnd (ts : list Touch) (e e' : Engine) :
  MInv e -> handleTouchEnd ts e = Some e' -> MInv e'.
Proof.
  intros H. unfold handleTouchEnd.
  pose proof (MInv_shouldHandleEvent TOUCH e ltac:(discriminate) H) as H1.
  destruct (shouldHandleEvent TOUCH e) as [ok e1]. cbn [fst snd] in *.
  destruct ok; [|now intros [= <-]].
  apply MInv_multiPointerEnd. now apply MInv_removeTouches.
Qed.

Lemma MInv_handlePointerEvent (type : PointerEventType) (i : Z) (x y : R)
    (onImage : bool) (e e' : Engine) :
  MInv e -> handlePointerEvent type i x y onImage e = Some e' -> MInv e'.
Proof.
  intros H. unfold handlePointerEvent.
  pose proof (MInv_shouldHandleEvent POINTER e ltac:(discriminate) H) as H1.
  pose proof H as (_ & Hr & _).
  destruct (shouldHandleEvent_registry POINTER e ltac:(discriminate) Hr) as (_ & _ & Hsrc).
  destruct (shouldHandleEvent POINTER e) as [ok e1]. cbn [fst snd] in *.
  destruct ok; [|now intros [= <-]].
  destruct type.
  - destruct onImage; [|now intros [= <-]].
    apply MInv_multiPointerStart. apply MInv_addPointer; [|now rewrite Hsrc|exact H1].
    now rewrite Hsrc.
  - now apply MInv_multiPointerMove.
  - apply MInv_multiPointerEnd. now apply MInv_removePointer.
  - apply MInv_multiPointerEnd. now apply MInv_removePointer.
Qed.

Lemma MInv_handleImageMouseWheel (dx dy cx cy : R) (e : Engine) :
  MInv e -> MInv (handleImageMouseWheel dx dy cx cy e).
Proof.
  intros H. unfold handleImageMouseWheel.
  destruct (_ >=? _); [|exact H]. destruct (_ <? _); [exact H|].
  apply MInv_changeZoom. eapply MInv_sameCore; [|exact H]. repeat split.
Qed.

Lemma MInv_handleImageDoubleClick (cx cy : R) (e : Engine) :
  MInv e -> MInv (handleImageDoubleClick cx cy e).
Proof.
  intros H. unfold handleImageDoubleClick. destruct (_ >? _); now apply MInv_changeZoom.
Qed.

Lemma MInv_handleZoomInButtonClick (e : Engine) :
  MInv e -> MInv (handleZoomInButtonClick e).
Proof.
  intros H. unfold handleZoomInButtonClick.
  pose proof (MInv_changeZoom (zoomLevel (state e) + ZOOM_BUTTON_INCREMENT_SIZE)
                None None e H) as H1.
  destruct (_ =? _); [|exact H1]. eapply MInv_sameCore; [|exact H1]. repeat split.
Qed.

Lemma MInv_handleZoomOutButtonClick (e : Engine) :
  MInv e -> MInv (handleZoomOutButtonClick e).
Proof.
  intros H. unfold handleZoomOutButtonClick.
  pose proof (MInv_changeZoom (zoomLevel (state e) - ZOOM_BUTTON_INCREMENT_SIZE)
                None None e H) as H1.
  destruct (_ =? _); [|exact H1]. eapply MInv_sameCore; [|exact H1]. repeat split.
Qed.

Lemma MInv_requestClose (keydown : bool) (e : Engine) : MInv e -> MInv (requestClose keydown e).
Proof.
  intros H. unfold requestClose. destruct (_ || _).
  - eapply MInv_sameCore; [|exact H]. repeat split.
  - eapply MInv_timerStep; [apply timerStep_setTimeout|].
    eapply MInv_sameCore; [|exact H]. repeat split.
Qed.

Lemma MInv_handleKeyInput (keyup : bool) (keyCode : Key) (now : R) (e : Engine) :
  MInv e -> MInv (handleKeyInput keyup keyCode now e).
Proof.
  intros H. unfold handleKeyInput.
  destruct (isAnimating e); [exact H|].
  destruct keyup; [eapply MInv_sameCore; [|exact H]; repeat split|].
  destruct (_ && _); [exact H|].
  assert (H1 : MInv (setKeyState (keyPressed (flags e)) now e))
    by (eapply MInv_sameCore; [|exact H]; repeat split).
  destruct keyCode.
  - apply MInv_requestClose. eapply MInv_sameCore; [|exact H1]. repeat split.
  - destruct (negb _); [exact H1|]. apply MInv_requestMove.
    eapply MInv_sameCore; [|exact H1]. repeat split.
  - destruct (negb _); [exact H1|]. apply MInv_requestMove.
    eapply MInv_sameCore; [|exact H1]. repeat split.
  - exact H1.
Qed.

Lemma MInv_handleWindowResize (e : Engine) : MInv e -> MInv (handleWindowResize e).
Proof.
  intros H. unfold handleWindowResize.
  eapply MInv_sameCore;
    [|eapply MInv_timerStep;
      [apply (timerStep_setTimeout CbForceUpdate 100)|
       eapply MInv_timerStep; [apply (timerStep_clearTimeout (resizeTimeout (timerVars e)))|
                               exact H]]].
  repeat split.
Qed.

Lemma MInv_handleOuterMousewheel (e : Engine) : MInv e -> MInv (handleOuterMousewheel e).
Proof.
  intros H. unfold handleOuterMousewheel.
  eapply MInv_sameCore;
    [|eapply MInv_timerStep;
      [apply (timerStep_setTimeout CbResetScroll 300)|
       eapply MInv_timerStep;
         [apply (timerStep_clearTimeout (resetScrollTimeout (timerVars e)))|exact H]]].
  repeat split.
Qed.

Lemma timerStep_loadOne (p : Props) (t : SrcName) (e : Engine) : timerStep e (loadOne p t e).
Proof.
  unfold loadOne.
  set (e1 := if truthy (propSrc p t) && _ then setLoadError t false e else e).
  assert (H1 : timerStep e e1).
  { subst e1. apply timerStep_sameCore. destruct (_ && _); repeat split. }
  destruct (propSrc p t) as [src|]; [|exact H1].
  destruct (truthy (Some src) && negb (isImageLoaded e1 (Some src))); [|exact H1].
  eapply timerStep_trans; [exact H1|]. unfold loadImage.
  destruct (isImageLoaded e1 (Some src)).
  - apply timerStep_setTimeout.
  - apply timerStep_sameCore. repeat split.
Qed.

Lemma timerStep_loadAllImages (p : Props) (e : Engine) : timerStep e (loadAllImages p e).
Proof.
  unfold loadAllImages. generalize getSrcTypes. intros l. revert e.
  induction l as [|t l IH]; intros e; [apply timerStep_refl|].
  cbn [fold_left]. eapply timerStep_trans; [apply timerStep_loadOne|apply IH].
Qed.

Lemma sameCore_markUnloaded (src : string) (e : Engine) : sameCore e (markUnloaded src e).
Proof. unfold markUnloaded. destruct (imageCache e !! src); repeat split. Qed.

Lemma MInv_fold_markUnloaded (next l : list string) (e : Engine) :
  MInv e ->
  MInv (fold_left (fun e prevSrc =>
                     if negb (inDict prevSrc next) then markUnloaded prevSrc e else e) l e).
Proof.
  revert e. induction l as [|k l IH]; intros e H; [exact H|].
  cbn [fold_left]. apply IH. destruct (negb _); [|exact H].
  eapply MInv_sameCore; [apply sameCore_markUnloaded|exact H].
Qed.

Lemma MInv_receiveProps (nextProps : Props) (e : Engine) :
  MInv e -> MInv (receiveProps nextProps e).
Proof.
  intros H. unfold receiveProps.
  apply (MInv_sameCore (UNSAFE_componentWillReceiveProps nextProps e)); [repeat split|].
  unfold UNSAFE_componentWillReceiveProps.
  destruct (_ || _); [|exact H].
  eapply MInv_timerStep; [apply timerStep_loadAllImages|].
  match goal with
  | |- MInv (setMoveRequested false ?x) => apply (MInv_sameCore x); [repeat split|]
  end.
  now apply MInv_fold_markUnloaded.
Qed.

(** The image callbacks touch nothing of the core, mounted or not. *)
Lemma sameCore_imageOnLoad (t : SrcName) (src : string) (w h : R) (e : Engine) :
  sameCore e (imageOnLoad t src w h e).
Proof.
  unfold imageOnLoad, loadDone. cbn [negb]. destruct (_ || _); repeat split.
Qed.

Lemma sameCore_imageOnError (t : SrcName) (src : string) (e : Engine) :
  sameCore e (imageOnError t src e).
Proof. repeat split. Qed.

Lemma sameCore_runCallback (cb : TimerCallback) (e : Engine) : sameCore e (runCallback cb e).
Proof.
  destruct cb; cbn [runCallback]; try (repeat split; fail).
  unfold loadDone. destruct (_ || _); repeat split.
Qed.

Lemma Inv_fireTimer (id : positive) (e e' : Engine) :
  Inv e -> fireTimer id e = Some e' ->
  Inv e' /\ didUnmount (flags e') = didUnmount (flags e).
Proof.
  intros (Hr & Hzr & Hpi & Htm). unfold fireTimer.
  destruct (List.find _ _) as [t|]; [|discriminate]. cbn [mbind option_bind].
  intros [= <-].
  change (setTimeouts _ (browserClearTimeout id e)) with (clearTimeout (Some id) e).
  assert (H1 : Inv (clearTimeout (Some id) e)).
  { split; [exact Hr|]. split; [exact Hzr|]. split; [exact Hpi|].
    now apply timers_ok_clearTimeout. }
  split.
  - eapply Inv_sameCore; [apply sameCore_runCallback|exact H1].
  - destruct (sameCore_runCallback (t_callback t) (clearTimeout (Some id) e))
      as (_&_&_&_&_&_&Hd). exact Hd.
Qed.

(** Teardown: what the loop over [this.timeouts] leaves pending. *)
Lemma fold_browserClearTimeout (ids : list positive) (e : Engine) :
  let e' := fold_left (fun e tid => browserClearTimeout tid e) ids e in
  pending (env e') =
    List.filter (fun t => negb (existsb (Pos.eqb (t_id t)) ids)) (pending (env e)) /\
  gesture e' = gesture e /\ pinchVars e' = pinchVars e /\ state e' = state e /\
  timerVars e' = timerVars e /\ flags e' = flags e /\
  nextTimerId (env e') = nextTimerId (env e).
Proof.
  revert e. induction ids as [|i ids IH]; intros e; cbn [fold_left].
  - cbn [existsb negb]. repeat split.
    induction (pending (env e)) as [|t l IHl]; [reflexivity|].
    cbn [List.filter]. now rewrite <- IHl.
  - destruct (IH (browserClearTimeout i e)) as (Hp & Hg & Hpv & Hs & Ht & Hf & Hn).
    cbv zeta. rewrite Hp, Hg, Hpv, Hs, Ht, Hf, Hn. repeat split.
    unfold browserClearTimeout. fields.
    induction (pending (env e)) as [|t l IHl]; [reflexivity|].
    cbn [List.filter existsb].
    destruct (Pos.eqb (t_id t) i) eqn:Hi; cbn [negb orb List.filter].
    + exact IHl.
    + destruct (negb (existsb (Pos.eqb (t_id t)) ids)); now rewrite IHl.
Qed.

Lemma filter_all_listed (l : list Timer) :
  List.filter (fun t => negb (existsb (Pos.eqb (t_id t)) (map t_id l))) l = [].
Proof.
  assert (H : forall ids, (forall t, In t l -> In (t_id t) ids) ->
            List.filter (fun t => negb (existsb (Pos.eqb (t_id t)) ids)) l = []).
  { intros ids. induction l as [|t l IH]; intros Hin; [reflexivity|].
    cbn [List.filter].
    assert (Hex : existsb (Pos.eqb (t_id t)) ids = true).
    { apply existsb_exists. exists (t_id t). split; [apply Hin; now left|].
      apply Pos.eqb_refl. }
    rewrite Hex. cbn [negb]. apply IH. intros t' Ht'. apply Hin. now right. }
  apply H. intros t Ht. now apply in_map.
Qed.

Lemma Inv_componentWillUnmount (e : Engine) :
  didUnmount (flags e) = false -> Inv e ->
  Inv (componentWillUnmount e) /\ didUnmount (flags (componentWillUnmount e)) = true /\
  pending (env (componentWillUnmount e)) = [].
Proof.
  intros Hm (Hr & Hzr & Hpi & Hfresh & Heq). rewrite Hm in Heq.
  unfold componentWillUnmount.
  set (e1 := setListening false (setDidUnmount true e)).
  destruct (fold_browserClearTimeout (timeouts (timerVars e1)) e1)
    as (Hp & Hg & Hpv & Hs & Ht & Hf & Hn).
  cbv zeta in *.
  assert (Hnil : pending (env (fold_left (fun e tid => browserClearTimeout tid e)
                                 (timeouts (timerVars e1)) e1)) = []).
  { rewrite Hp. subst e1. fields. rewrite <- Heq. apply filter_all_listed. }
  split; [|split; [now rewrite Hf|exact Hnil]].
  split; [|split; [|split]].
  - unfold registry_ok. now rewrite Hg.
  - intros HK. unfold zoom_in_range. rewrite Hs. now apply Hzr.
  - unfold pinch_ok. now rewrite Hg, Hpv.
  - unfold timers_ok. rewrite Ht, Hf, Hn, Hnil. split; [exact Hfresh|reflexivity].
Qed.

Lemma MInv_Inv (e : Engine) : MInv e -> Inv e.
Proof. now intros [_ H]. Qed.

(** Every event keeps the invariant. *)
Lemma Inv_dispatch (ev : Event) (e e' : Engine) :
  Inv e -> dispatch ev e = Some e' -> Inv e'.
Proof.
  intros H. destruct ev; unfold dispatch;
    try (destruct (didUnmount (flags e)) eqn:Hm; [discriminate|];
         assert (HM : MInv e) by (split; assumption)).
  - intros He. now apply MInv_Inv, (MInv_handleMouseDown x y onImage e).
  - intros He. now apply MInv_Inv, (MInv_handleMouseMove x y e).
  - intros He. now apply MInv_Inv, (MInv_handleMouseUp x y e).
  - intros He. now apply MInv_Inv, (MInv_handleTouchStart changedTouches onImage e).
  - intros He. now apply MInv_Inv, (MInv_handleTouchMove changedTouches e).
  - intros He. now apply MInv_Inv, (MInv_handleTouchEnd changedTouches e).
  - intros He. now apply MInv_Inv, (MInv_handlePointerEvent type pointerId x y onImage e).
  - intros [= <-]. now apply MInv_Inv, MInv_handleImageMouseWheel.
  - intros [= <-]. now apply MInv_Inv, MInv_handleOuterMousewheel.
  - intros [= <-]. now apply MInv_Inv, MInv_handleImageDoubleClick.
  - intros [= <-]. now apply MInv_Inv, MInv_handleKeyInput.
  - intros [= <-]. now apply MInv_Inv, MInv_handleZoomInButtonClick.
  - intros [= <-]. now apply MInv_Inv, MInv_handleZoomOutButtonClick.
  - intros [= <-]. now apply MInv_Inv, MInv_requestMove.
  - intros [= <-]. now apply MInv_Inv, MInv_requestMove.
  - intros [= <-]. now apply MInv_Inv, MInv_requestClose.
  - intros [= <-]. now apply MInv_Inv, MInv_handleWindowResize.
  - intros [= <-]. apply MInv_Inv. eapply MInv_sameCore; [|exact HM]. repeat split.
  - intros [= <-]. now apply MInv_Inv, MInv_receiveProps.
  - destruct (takeLoad t src (inflight (env e))) as [l|]; [|discriminate].
    cbn [mbind option_bind]. intros [= <-].
    eapply Inv_sameCore; [apply sameCore_imageOnLoad|].
    eapply Inv_sameCore; [|exact H]. repeat split.
  - destruct (takeLoad t src (inflight (env e))) as [l|]; [|discriminate].
    cbn [mbind option_bind]. intros [= <-].
    eapply Inv_sameCore; [apply sameCore_imageOnError|].
    eapply Inv_sameCore; [|exact H]. repeat split.
  - intros He. now destruct (Inv_fireTimer id e e' H He).
  - intros [= <-]. now destruct (Inv_componentWillUnmount e Hm H).
Qed.

Lemma Inv_run (evs : list Event) (e e' : Engine) :
  Inv e -> run evs e = Some e' -> Inv e'.
Proof.
  revert e. induction evs as [|ev evs IH]; intros e H; cbn [run].
  - now intros [= <-].
  - destruct (dispatch ev e) as [e1|] eqn:Hd; [|discriminate]. cbn [mbind option_bind].
    apply IH. now apply (Inv_dispatch ev e).
Qed.

Lemma Inv_mounted (p : Props) (box : Rect) : Inv (mounted p box).
Proof.
  split; [|split; [|split]].
  - split; [constructor|reflexivity].
  - intros HK. unfold zoom_in_range, mounted. fields. lra.
  - intros H. discriminate H.
  - split; [constructor|reflexivity].
Qed.

(** The registry, zoom, pinch and timer invariants hold in every reachable
    state. *)
Lemma reachable_Inv (e : Engine) : reachable e -> Inv e.
Proof.
  intros (p & box & evs & Hrun). rewrite componentDidMount_constructor in Hrun.
  eapply Inv_run; [apply Inv_mounted|exact Hrun].
Qed.

Lemma not_in_filter_neq (id : positive) (l : list positive) :
  ~ In id (List.filter (fun tid => negb (Pos.eqb tid id)) l).
Proof.
  intros Hin. apply filter_In in Hin as [_ Hne].
  now rewrite Pos.eqb_refl in Hne.
Qed.

Lemma not_in_filter_timers (id : positive) (l : list Timer) :
  ~ In id (map t_id (List.filter (fun t => negb (Pos.eqb (t_id t) id)) l)).
Proof. rewrite filter_map_t_id. apply not_in_filter_neq. Qed.

(** C9. In every reachable state:
    - while the component is mounted, the ids in [this.timeouts] are
      exactly the ids of the timers pending in the browser;
    - [this.setTimeout] records the fresh id it returns and leaves the timer
      pending;
    - a timer that fires, or is cleared through [this.clearTimeout], is
      gone from [this.timeouts] and from the browser;
    - [componentWillUnmount] leaves no timer pending, so none can fire;
    - after teardown no timer is pending and no timer event can happen. *)
Theorem timers_tracked_and_cancelled (e : Engine) :
  reachable e ->
  (didUnmount (flags e) = false ->
     map t_id (pending (env e)) = timeouts (timerVars e)) /\
  (forall cb t,
     didUnmount (flags e) = false ->
     In (fst (setTimeout cb t e)) (timeouts (timerVars (snd (setTimeout cb t e)))) /\
     ~ In (fst (setTimeout cb t e)) (timeouts (timerVars e)) /\
     In {| t_id := fst (setTimeout cb t e); t_delay := t; t_callback := cb |}
        (pending (env (snd (setTimeout cb t e)))) /\
     map t_id (pending (env (snd (setTimeout cb t e)))) =
       timeouts (timerVars (snd (setTimeout cb t e)))) /\
  (forall id e',
     fireTimer id e = Some e' ->
     ~ In id (timeouts (timerVars e')) /\ ~ In id (map t_id (pending (env e')))) /\
  (forall id,
     ~ In id (timeouts (timerVars (clearTimeout (Some id) e))) /\
     ~ In id (map t_id (pending (env (clearTimeout (Some id) e))))) /\
  (didUnmount (flags e) = false ->
     pending (env (componentWillUnmount e)) = [] /\
     forall id, fireTimer id (componentWillUnmount e) = None) /\
  (didUnmount (flags e) = true ->
     pending (env e) = [] /\ forall id, dispatch (TimerFires id) e = None).
Proof.
  intros Hreach. pose proof (reachable_Inv e Hreach) as Hinv.
  pose proof Hinv as (_ & _ & _ & Hfresh & Heq).
  split; [|split; [|split; [|split; [|split]]]].
  - intros Hm. now rewrite Hm in Heq.
  - intros cb t Hm. rewrite Hm in Heq.
    cbn [setTimeout browserSetTimeout fst snd]. fields.
    split; [apply in_or_app; right; now left|]. split; [|split].
    + intros Hin. rewrite Forall_forall in Hfresh.
      apply list_elem_of_In, Hfresh in Hin. lia.
    + apply in_or_app. right. now left.
    + rewrite map_app. cbn [map t_id]. now rewrite Heq.
  - intros id e' Hfire. unfold fireTimer in Hfire.
    destruct (List.find _ _) as [t|]; [|discriminate]. cbn [mbind option_bind] in Hfire.
    cbv zeta in Hfire. injection Hfire as <-.
    match goal with
    | |- context [runCallback ?cb ?x] =>
        destruct (sameCore_runCallback cb x) as (_ & _ & _ & Ht & Hp & _)
    end.
    rewrite Ht, Hp. unfold browserClearTimeout. fields.
    split; [apply not_in_filter_neq|apply not_in_filter_timers].
  - intros id. unfold clearTimeout, browserClearTimeout. fields.
    split; [apply not_in_filter_neq|apply not_in_filter_timers].
  - intros Hm. destruct (Inv_componentWillUnmount e Hm Hinv) as (_ & _ & Hnil).
    split; [exact Hnil|]. intros id. unfold fireTimer. now rewrite Hnil.
  - intros Hu. rewrite Hu in Heq. split; [exact Heq|].
    intros id. unfold dispatch, fireTimer. now rewrite Heq.
Qed.

End Invariants.

Section TimerExamples.
#[local] Existing Instance sampleConstants.

Lemma reachable_resized : reachable resizedEngine.
Proof.
  exists sampleProps, sampleBox, [WindowResize].
  rewrite componentDidMount_constructor. reflexivity.
Qed.

Lemma timers_tracked_and_cancelled_witness :
  (exists t, pending (env resizedEngine) = [t] /\ t_callback t = CbForceUpdate) /\
  pending (env (componentWillUnmount resizedEngine)) = [].
Proof.
  split; [eexists; split; reflexivity|].
  apply (proj1 (proj2 (proj2 (proj2 (proj2
           (timers_tracked_and_cancelled resizedEngine reachable_resized)))))).
  reflexivity.
Defined.

End TimerExamples.

(** ** Image loading *)

Lemma srcTypeName_inj (t t' : SrcName) : srcTypeName t = srcTypeName t' -> t = t'.
Proof. destruct t, t'; intros H; try reflexivity; discriminate H. Qed.

Lemma errorFlag_setLoadError (t t' : SrcName) (b : bool) (e : Engine) :
  errorFlag (setLoadError t' b e) t = if bool_decide (t' = t) then b else errorFlag e t.
Proof.
  unfold errorFlag. fields. case_bool_decide as Ht.
  - subst t'. now rewrite lookup_insert_eq.
  - rewrite lookup_insert_ne; [reflexivity|]. intros H. now apply srcTypeName_inj in H.
Qed.

Lemma state_loadImage (t : SrcName) (src : string) (e : Engine) :
  state (loadImage t src e) = state e.
Proof. unfold loadImage. destruct (isImageLoaded e (Some src)); reflexivity. Qed.

(** [loadAllImages] never raises an error flag, and lowers the flag of the
    role it handles when the role has a source. *)
Lemma errorFlag_loadOne (p : Props) (t' t : SrcName) (e : Engine) :
  (errorFlag e t = false -> errorFlag (loadOne p t' e) t = false) /\
  (t' = t -> truthy (propSrc p t) = true -> errorFlag (loadOne p t' e) t = false).
Proof.
  unfold loadOne. fold (errorFlag e t').
  set (e1 := if truthy (propSrc p t') && errorFlag e t' then setLoadError t' false e else e).
  assert (H1 : (errorFlag e t = false -> errorFlag e1 t = false) /\
               (t' = t -> truthy (propSrc p t) = true -> errorFlag e1 t = false)).
  { subst e1. split.
    - intros H. destruct (_ && _); [|exact H].
      rewrite errorFlag_setLoadError. now case_bool_decide.
    - intros -> Ht. rewrite Ht. cbn [andb].
      destruct (errorFlag e t) eqn:Hf; [|exact Hf].
      rewrite errorFlag_setLoadError. now rewrite bool_decide_eq_true_2. }
  assert (H2 : errorFlag (match propSrc p t' with
                          | Some src =>
                              if truthy (Some src) && negb (isImageLoaded e1 (Some src))
                              then loadImage t' src e1 else e1
                          | None => e1
                          end) t = errorFlag e1 t).
  { unfold errorFlag. destruct (propSrc p t') as [s|]; [|reflexivity].
    destruct (truthy (Some s) && negb (isImageLoaded e1 (Some s))); [|reflexivity].
    now rewrite state_loadImage. }
  rewrite H2. exact H1.
Qed.

Lemma errorFlag_loadAllImages (p : Props) (t : SrcName) (e : Engine) :
  truthy (propSrc p t) = true -> errorFlag (loadAllImages p e) t = false.
Proof.
  intros Ht. unfold loadAllImages.
  assert (Hin : In t getSrcTypes) by (destruct t; cbn; tauto).
  revert e Hin. generalize getSrcTypes. intros l.
  assert (Hkeep : forall l e, errorFlag e t = false ->
            errorFlag (fold_left (fun e type => loadOne p type e) l e) t = false).
  { clear l. intros l. induction l as [|t' l IH]; intros e H; [exact H|].
    cbn [fold_left]. apply IH. now apply (proj1 (errorFlag_loadOne p t' t e)). }
  induction l as [|t' l IH]; intros e Hin; [destruct Hin|].
  cbn [fold_left]. destruct Hin as [->|Hin].
  - apply Hkeep. now apply (proj2 (errorFlag_loadOne p t t e)).
  - now apply IH.
Qed.

(** C8, as the code has it.  A successful load of [src] for role [t]:
    - stores [{loaded: true, width, height}] under [src] and touches no
      other cache entry;
    - leaves the React state, and with it every error flag, as it was;
    - calls [onImageLoad], and signals a re-render exactly when the role's
      source in the live props is still [src] and the component has not
      unmounted.
    So when the role's source changed from A to B before A's load
    completes, A's completion neither marks B's cache entry loaded nor
    clears B's error flag, and signals nothing.  The error flag of a role
    with a source is cleared when [loadAllImages] (re)issues the loads, not
    on completion. *)
Theorem imageOnLoad_effects (t : SrcName) (src : string) (width height : R) (e : Engine) :
  let e' := imageOnLoad t src width height e in
  imageCache e' =
    <[src := {| loaded := true; c_width := width; c_height := height |}]> (imageCache e) /\
  (forall other, other <> src -> imageCache e' !! other = imageCache e !! other) /\
  state e' = state e /\
  (forall r, errorFlag e' r = errorFlag e r) /\
  log (env e') = log (env e) ++ loadEffects e t src /\
  (In ForceUpdate (loadEffects e t src) <->
     propSrc (props e) t = Some src /\ didUnmount (flags e) = false) /\
  (forall p r, truthy (propSrc p r) = true -> errorFlag (loadAllImages p e) r = false).
Proof.
  intros e'. subst e'. unfold imageOnLoad, loadDone, loadEffects. cbn [negb]. fields.
  assert (Hcond : forall b1 b2 : bool,
            (if negb b1 || b2 then false else true) = b1 && negb b2)
    by (intros [] []; reflexivity).
  destruct (bool_decide (propSrc (props e) t = Some src)) eqn:Hb;
    destruct (didUnmount (flags e)) eqn:Hd; cbn [negb orb andb]; fields.
  all: split; [reflexivity|].
  all: split; [intros other Hne; now rewrite lookup_insert_ne by congruence|].
  all: split; [reflexivity|].
  all: split; [reflexivity|].
  all: split; [now rewrite <- ?app_assoc|].
  all: split; [|intros p r; apply errorFlag_loadAllImages].
  all: try (apply bool_decide_eq_true in Hb); try (apply bool_decide_eq_false in Hb).
  all: cbn [In]; split;
    [intros [H|H]; try discriminate H; try (destruct H as [H|H]; try discriminate H);
     try (destruct H; fail); auto
    |intros [H1 H2]; try discriminate H2; try contradiction; auto].
Qed.

Lemma fold_markUnloaded_empty (next l : list string) (e : Engine) :
  imageCache e = ∅ ->
  fold_left (fun e prevSrc =>
               if negb (inDict prevSrc next) then markUnloaded prevSrc e else e) l e = e.
Proof.
  intros Hc. induction l as [|k l IH]; [reflexivity|]. cbn [fold_left].
  assert (Hk : markUnloaded k e = e) by (unfold markUnloaded; now rewrite Hc, lookup_empty).
  rewrite Hk. destruct (negb _); exact IH.
Qed.

(** New props for a component that has nothing cached and no error: every
    source of the new props is loaded (again). *)
Lemma receiveProps_fresh (nextProps : Props) (e : Engine) (t : SrcName) :
  imageCache e = ∅ -> loadErrorStatus (state e) = ∅ ->
  propSrc (props e) t <> propSrc nextProps t ->
  receiveProps nextProps e =
  with_props nextProps
    (setInflight (inflight (env e) ++ initialLoads nextProps) (setMoveRequested false e)).
Proof.
  intros Hc Hs Ht. unfold receiveProps, UNSAFE_componentWillReceiveProps.
  set (changed := List.filter _ getSrcTypes).
  assert (Hch : bool_decide (changed = []) = false).
  { apply bool_decide_eq_false. intros Hnil.
    assert (Hin : In t changed).
    { subst changed. apply filter_In. split; [destruct t; cbn; tauto|].
      now rewrite bool_decide_eq_false_2. }
    rewrite Hnil in Hin. destruct Hin. }
  rewrite Hch. cbn [negb orb].
  rewrite fold_markUnloaded_empty by exact Hc.
  now rewrite loadAllImages_fresh.
Qed.

Lemma run_cons {K : Constants} (ev : Event) (evs : list Event) (e : Engine) :
  run (ev :: evs) e = dispatch ev e ≫= run evs.
Proof. reflexivity. Qed.

Section LoaderExamples.
#[local] Existing Instance sampleConstants.

(** C8 as stated fails.  The component mounts showing "b.jpg"; the parent
    replaces the main image by "d.jpg" while "b.jpg" is still loading; the
    load of "b.jpg" then fails and the load of "d.jpg" succeeds.  The success
    stores the entry of "d.jpg" and signals a re-render, and the error flag
    of the main role is still set. *)
Lemma load_success_keeps_error_flag :
  exists e',
    run [ReceiveProps replacedProps; ImageFailed MainSrc "b.jpg";
         ImageLoaded MainSrc "d.jpg" 640 480]
        (componentDidMount (constructor sampleProps sampleBox)) = Some e' /\
    propSrc (props e') MainSrc = Some "d.jpg" /\
    imageCache e' !! "d.jpg" = Some {| loaded := true; c_width := 640; c_height := 480 |} /\
    last (log (env e')) = Some ForceUpdate /\
    errorFlag e' MainSrc = true.
Proof.
  rewrite componentDidMount_constructor.
  set (e0 := mounted sampleProps sampleBox).
  assert (Hl0 : initialLoads sampleProps =
                [(MainSrc, "b.jpg"); (NextSrc, "c.jpg"); (PrevSrc, "a.jpg")]) by reflexivity.
  assert (Hl1 : initialLoads replacedProps =
                [(MainSrc, "d.jpg"); (NextSrc, "c.jpg"); (PrevSrc, "a.jpg")]) by reflexivity.
  set (e1 := with_props replacedProps
               (setInflight [(MainSrc, "b.jpg"); (NextSrc, "c.jpg"); (PrevSrc, "a.jpg");
                             (MainSrc, "d.jpg"); (NextSrc, "c.jpg"); (PrevSrc, "a.jpg")]
                  (setMoveRequested false e0))).
  assert (H1 : dispatch (ReceiveProps replacedProps) e0 = Some e1).
  { unfold dispatch. change (didUnmount (flags e0)) with false. cbv iota.
    rewrite (receiveProps_fresh replacedProps e0 MainSrc);
      [|reflexivity|reflexivity|discriminate].
    change (inflight (env e0)) with (initialLoads sampleProps). now rewrite Hl0, Hl1. }
  set (e2 := imageOnError MainSrc "b.jpg"
               (setInflight [(NextSrc, "c.jpg"); (PrevSrc, "a.jpg");
                             (MainSrc, "d.jpg"); (NextSrc, "c.jpg"); (PrevSrc, "a.jpg")] e1)).
  assert (H2 : dispatch (ImageFailed MainSrc "b.jpg") e1 = Some e2).
  { unfold dispatch. subst e1. fields. cbn [takeLoad]. enum_decide. reflexivity. }
  set (e3 := imageOnLoad MainSrc "d.jpg" 640 480
               (setInflight [(NextSrc, "c.jpg"); (PrevSrc, "a.jpg");
                             (NextSrc, "c.jpg"); (PrevSrc, "a.jpg")] e2)).
  assert (H3 : dispatch (ImageLoaded MainSrc "d.jpg" 640 480) e2 = Some e3).
  { unfold dispatch. subst e2 e1. unfold imageOnError, loadDone. fields.
    cbn [takeLoad]. enum_decide. reflexivity. }
  exists e3. split.
  { rewrite run_cons, H1. cbn [mbind option_bind].
    rewrite run_cons, H2. cbn [mbind option_bind].
    rewrite run_cons, H3. reflexivity. }
  subst e3. unfold imageOnLoad, loadDone. fields.
  change (propSrc (props e2) MainSrc) with (Some "d.jpg").
  change (didUnmount (flags e2)) with false. enum_decide. cbn [negb orb]. fields.
  split; [reflexivity|]. split; [apply lookup_insert_eq|].
  split; [apply last_snoc|].
  unfold errorFlag. fields. subst e2. unfold imageOnError, loadDone. fields.
  now rewrite lookup_insert_eq.
Qed.

End LoaderExamples.

(** ** The viewport invariant *)

Lemma clamp_low (lo hi v : R) : lo <= hi -> v <= lo -> clamp lo hi v = lo.
Proof.
  intros H Hv. unfold clamp, Rmin.
  destruct (Rle_dec hi v); unfold Rmax; destruct (Rle_dec _ _); lra.
Qed.

Section ViewportInvariant.
Context {K : Constants}.

(** What keeps the viewport invariant: [changeZoom], the end of a pan
    (the clamp leaves a zero offset alone), a pinch step, and the reset of
    a navigation. *)
Lemma viewport_ok_kept (e : Engine) :
  viewport_ok e ->
  (forall z cx cy, viewport_ok (changeZoom z cx cy e)) /\
  viewport_ok (handleMoveEnd e) /\
  (forall pts e', handlePinch pts e = Some e' -> viewport_ok e') /\
  (forall d, viewport_ok (requestMove d e)).
Proof.
  intros Hok. split; [|split; [|split]].
  - intros z cx cy. now apply changeZoom_viewport_ok.
  - unfold handleMoveEnd. fold (moveReset e).
    pose proof (getMaxOffsets_symmetric (moveReset e)) as (HX & HY & HmX & HmY).
    set (m := getMaxOffsets (moveReset e)) in *.
    change (offsetX (state (moveReset e))) with (offsetX (state e)).
    change (offsetY (state (moveReset e))) with (offsetY (state e)).
    change (zoomLevel (state (moveReset e))) with (zoomLevel (state e)).
    destruct (negb _ || negb _); [|exact Hok].
    unfold viewport_ok in *. fields. intros Hz. destruct (Hok Hz) as [-> ->].
    split; apply clamp_id; lra.
  - intros pts e'. unfold handlePinch.
    destruct (calculatePinchDistance _); [|discriminate].
    destruct (calculatePinchCenter _); [|discriminate].
    cbn [mbind option_bind]. intros [= <-]. now apply changeZoom_viewport_ok.
  - intros d. unfold requestMove, viewport_ok.
    destruct (negb (animationDisabled (props e)) && _), d; fields; auto.
Qed.

(** A pan move on a state at the minimum zoom level does not keep it: the
    offset becomes whatever the drag says. *)
Lemma handleMove_offsets (p : ParsedEvent) (e : Engine) :
  zoomLevel (state (handleMove p e)) = zoomLevel (state e) /\
  offsetX (state (handleMove p e)) =
    moveStartX (moveVars e) - p_x p + moveStartOffsetX (moveVars e) /\
  offsetY (state (handleMove p e)) =
    moveStartY (moveVars e) - p_y p + moveStartOffsetY (moveVars e).
Proof.
  unfold handleMove.
  destruct (offsetX (state e) =? _) eqn:Hx; destruct (offsetY (state e) =? _) eqn:Hy;
    cbn [negb orb]; fields; try (repeat split; fail).
  apply num_eq_true in Hx, Hy. repeat split; assumption.
Qed.

End ViewportInvariant.

Section ViewportExamples.
#[local] Existing Instance sampleConstants.

(** C2 fails on the code.  The component mounts, the main image loads, the
    zoom-in button takes the level to 100, the mouse goes down on the image
    (a pan starts), the wheel is turned far enough to zoom all the way out
    (the level is [MIN_ZOOM_LEVEL] again and the offset is reset), and the
    mouse, still down, moves 20 pixels to the right: the pan move writes the
    offset [(-20, 0)] at the minimum zoom level. *)
Lemma pan_move_after_zoom_out_breaks_invariant :
  exists e',
    run [ImageLoaded MainSrc "b.jpg" 1000 800; ZoomInClick; MouseDown 10 10 true;
         ImageWheel 0 300 10 10; MouseMove 30 10]
        (componentDidMount (constructor sampleProps sampleBox)) = Some e' /\
    zoomLevel (state e') = MIN_ZOOM_LEVEL /\
    offsetX (state e') = -20 /\ offsetY (state e') = 0.
Proof.
  rewrite componentDidMount_constructor.
  set (e0 := mounted sampleProps sampleBox).
  set (e1 := imageOnLoad MainSrc "b.jpg" 1000 800
               (setInflight [(NextSrc, "c.jpg"); (PrevSrc, "a.jpg")] e0)).
  assert (H1 : dispatch (ImageLoaded MainSrc "b.jpg" 1000 800) e0 = Some e1) by reflexivity.
  set (e2 := setViewport 100 0 0 e1).
  assert (H2 : dispatch ZoomInClick e1 = Some e2).
  { unfold dispatch. change (didUnmount (flags e1)) with false. cbv iota.
    unfold handleZoomInButtonClick.
    change (zoomLevel (state e1)) with 0.
    cbn [ZOOM_BUTTON_INCREMENT_SIZE MAX_ZOOM_LEVEL sampleConstants].
    rewrite (proj2 (num_eq_false (0 + 100) 300)) by lra.
    destruct (getBestImageForType_loaded e1 MainSrc "b.jpg"
                {| loaded := true; c_width := 1000; c_height := 800 |})
      as (info & Hinfo & Hw & Hh); try reflexivity.
    assert (Hc : clamp MIN_ZOOM_LEVEL MAX_ZOOM_LEVEL (0 + 100) = 100)
      by (rewrite clamp_id; cbn [MIN_ZOOM_LEVEL MAX_ZOOM_LEVEL sampleConstants]; lra).
    rewrite (changeZoom_anchored (0 + 100) None None e1 info);
      [|reflexivity
       |rewrite Hc; change (zoomLevel (state e1)) with 0; lra
       |rewrite Hc; cbn [MIN_ZOOM_LEVEL sampleConstants]; lra
       |exact Hinfo].
    rewrite Hc. change (zoomLevel (state e1)) with 0.
    rewrite (proj2 (num_lt_false 100 0)) by lra. rewrite andb_false_r.
    unfold anchoredOffsetX, anchoredOffsetY, anchorX, anchorY.
    change (offsetX (state e1)) with 0. change (offsetY (state e1)) with 0.
    pose proof (getZoomMultiplier_pos (zoomLevel (state e1))).
    rewrite !anchoredOffset_centre by lra. reflexivity. }
  set (e3 := with_moveVars {| moveStartX := 10; moveStartY := 10;
                              moveStartOffsetX := 0; moveStartOffsetY := 0 |}
               (setCurrentAction MOVE
                  (emit PreventDefault
                     (addPointer (parseMouseEvent 10 10) (setEventsSource MOUSE e2))))).
  assert (H3 : dispatch (MouseDown 10 10 true) e2 = Some e3).
  { unfold dispatch. change (didUnmount (flags e2)) with false. cbv iota.
    unfold handleMouseDown, shouldHandleEvent.
    change (eventsSource (gesture e2)) with ANY. enum_decide. cbn [andb].
    unfold multiPointerStart.
    set (e2' := addPointer _ _). change (handleEnd false e2') with e2'.
    unfold startForPointers. change (pointerList (gesture e2')) with [parseMouseEvent 10 10].
    unfold decideMoveOrSwipe, handleMoveStart.
    change (zoomLevel (state (emit PreventDefault e2'))) with 100.
    cbn [MIN_ZOOM_LEVEL sampleConstants].
    rewrite (proj2 (num_le_false 100 0)) by lra.
    change (enableZoom (props (emit PreventDefault e2'))) with true. reflexivity. }
  set (e4 := setViewport 0 0 0 (setScroll 0 (0 + 300) e3)).
  assert (H4 : dispatch (ImageWheel 0 300 10 10) e3 = Some e4).
  { unfold dispatch. change (didUnmount (flags e3)) with false. cbv iota.
    unfold handleImageMouseWheel. rewrite Rabs_R0, (Rabs_right 300) by lra.
    rewrite (proj2 (num_le_true 0 300)) by lra.
    cbn [WHEEL_MOVE_Y_THRESHOLD sampleConstants].
    rewrite (proj2 (num_lt_false 300 1)) by lra.
    change (scrollY (flags e3)) with 0.
    set (e3' := setScroll 0 (0 + 300) e3). change (zoomLevel (state e3')) with 100.
    rewrite changeZoom_reset; [reflexivity|reflexivity| |];
      cbn [MIN_ZOOM_LEVEL MAX_ZOOM_LEVEL sampleConstants];
      rewrite clamp_low by lra; [change (zoomLevel (state e3')) with 100; lra|reflexivity]. }
  set (e5 := setViewport 0 (10 - 30 + 0) (10 - 10 + 0) (emit PreventDefault e4)).
  assert (H5 : dispatch (MouseMove 30 10) e4 = Some e5).
  { unfold dispatch. change (didUnmount (flags e4)) with false. cbv iota.
    unfold handleMouseMove, shouldHandleEvent.
    change (eventsSource (gesture e4)) with MOUSE. enum_decide.
    unfold multiPointerMove. change (currentAction (gesture e4)) with MOVE. cbv iota.
    cbn [head mbind option_bind]. unfold handleMove.
    change (moveStartX (moveVars (emit PreventDefault e4))) with 10.
    change (moveStartY (moveVars (emit PreventDefault e4))) with 10.
    change (moveStartOffsetX (moveVars (emit PreventDefault e4))) with 0.
    change (moveStartOffsetY (moveVars (emit PreventDefault e4))) with 0.
    change (offsetX (state (emit PreventDefault e4))) with 0.
    change (offsetY (state (emit PreventDefault e4))) with 0.
    change (zoomLevel (state (emit PreventDefault e4))) with 0.
    cbn [p_x p_y parseMouseEvent].
    rewrite (proj2 (num_eq_false 0 (10 - 30 + 0))) by lra. reflexivity. }
  exists e5. split.
  { rewrite run_cons, H1. cbn [mbind option_bind].
    rewrite run_cons, H2. cbn [mbind option_bind].
    rewrite run_cons, H3. cbn [mbind option_bind].
    rewrite run_cons, H4. cbn [mbind option_bind].
    rewrite run_cons, H5. reflexivity. }
  subst e5. fields. cbn [MIN_ZOOM_LEVEL sampleConstants].
  split; [reflexivity|]. split; lra.
Qed.

End ViewportExamples.
